(** * PTY relay (packages/desktop/src/main/pty-wrapper.py)

    A shallow embedding of the relay script: the two signal handlers,
    [main] with its startup sequence, the relay loop and the [finally]
    clause that restores the terminal, and the interpreter's exit status.

    The operating system is an explicit environment: every call the
    script makes ([pty.fork], [select.select], [os.read], [os.write],
    [os.waitpid], [termios.tcsetattr], ...) takes its outcome, and the
    signals handled at that call, from a [call] record.  What the script
    does to the outside world is recorded, in order, in the [trace] of
    the state. *)

From Stdlib Require Import ZArith List Lia Bool String.
From stdpp Require Import base gmap strings.
Import ListNotations.

Open Scope Z_scope.

(** ** Data *)

Abbreviation bytes := (list Byte.byte).

(** The list [iflag, oflag, cflag, lflag, ispeed, ospeed, cc] that
    [termios.tcgetattr] returns; the script only saves it and passes it
    back. *)
Abbreviation attrs := (list Z).

Inductive signal := SIGINT | SIGTERM.

(** The three byte-stream ends the script touches: [sys.stdin],
    [sys.stdout] and the PTY master descriptor [master_fd]. *)
Inductive endpoint := Stdin | Stdout | Master (fd : Z).

(** Python exceptions, as far as the [except] clauses of the script tell
    them apart.  [OSError] carries its errno; [BlockingIOError],
    [ChildProcessError] and the like are [OSError] with the matching
    errno, and [IOError] is an alias of [OSError].  [termios.error]
    derives from [Exception], not from [OSError]. *)
Inductive exn :=
| OSError (errno : Z)
| TermiosError (errno : Z)
| UnboundLocalError
| TypeError
| SystemExit (code : Z).

Definition EINTR : Z := 4.
Definition EIO : Z := 5.
Definition EBADF : Z := 9.
Definition ECHILD : Z := 10.
Definition EAGAIN : Z := 11.

(** An errno that only says "try again later". *)
Definition transient (e : Z) : bool := (e =? EAGAIN) || (e =? EINTR).

(** [os.WNOHANG] and the arguments of [select] and [os.read]. *)
Definition WNOHANG : Z := 1.
Definition select_timeout_ms : Z := 100.
Definition BUFSIZE : nat := 1024.

(** What the script does to the world, in program order. *)
Inductive event :=
| EKill (pid : Z) (sig : signal)
| EExecvp (file : string) (argv : list string)
| ESetraw
| ESetBlocking (ep : endpoint) (blocking : bool)
| ESelect (rlist : list endpoint) (timeout_ms : Z)
| ERead (ep : endpoint) (data : bytes)
| EWrite (ep : endpoint) (data : bytes)
| EFlush
| EWaitpid (pid : Z) (options : Z)
| ETcsetattr (a : attrs).

(** ** The environment *)

(** A call returns a value or fails with an errno; which exception the
    failure becomes is decided by the Python function that made it. *)
Inductive outcome (A : Type) :=
| Ok (a : A)
| Err (errno : Z).
Arguments Ok {A} a.
Arguments Err {A} errno.

(** One call into the operating system: the signals whose Python
    handlers run at this call (before it completes), and what the call
    does when no handler raises. *)
Record call (A : Type) := Call { sigs : list signal; out : outcome A }.
Arguments Call {A} sigs out.
Arguments sigs {A} c.
Arguments out {A} c.

(** The calls of one pass through the body of [while True]. *)
Record iteration := Iteration {
  it_select : call (list endpoint);   (* select.select(...)  -> r        *)
  it_in_read : call bytes;            (* os.read(stdin, 1024): available  *)
  it_in_write : call nat;             (* os.write(master_fd, data): room  *)
  it_out_read : call bytes;           (* os.read(master_fd, 1024)         *)
  it_out_write : call nat;            (* os.write(stdout, data): room     *)
  it_out_flush : call unit;           (* sys.stdout.flush()               *)
  it_wait : call (Z * Z)              (* os.waitpid(child_pid, WNOHANG)   *)
}.

(** A whole run: the process environment, the startup calls, the passes
    of the loop the run is observed for, and the restoring call. *)
Record script := Script {
  environ : gmap string string;       (* os.environ                       *)
  s_fork : call (Z * Z);              (* pty.fork() -> (pid, master_fd)   *)
  s_exec : call unit;                 (* os.execvp: Ok = image replaced   *)
  s_getattr : call unit;              (* termios.tcgetattr(sys.stdin)     *)
  s_setraw : call attrs;              (* tty.setraw: the raw attributes   *)
  s_block_master : call unit;         (* os.set_blocking(master_fd, ..)   *)
  s_block_stdin : call unit;          (* os.set_blocking(stdin, False)    *)
  s_loop : list iteration;
  s_restore : call unit               (* termios.tcsetattr(.., old_tty)   *)
}.

(** ** State and the monad of the script *)

(** [child_pid] is the module global ([None] until [pty.fork] returns),
    [old_tty] the local of [main] that the [try] body binds and the
    [finally] clause reads, [tty] the attributes the controlling
    terminal currently has. *)
Record state := State {
  child_pid : option Z;
  old_tty : option attrs;
  tty : attrs;
  trace : list event
}.

Definition initial (a : attrs) : state :=
  {| child_pid := None; old_tty := None; tty := a; trace := [] |}.

(** How a piece of the script ends: normally, with an exception on its
    way up, with the process image replaced by [execvp], or not yet
    (the observed passes of the loop are used up and the loop goes on). *)
Inductive res (A : Type) :=
| Done (a : A)
| Raise (e : exn)
| Execed
| Running.
Arguments Done {A} a.
Arguments Raise {A} e.
Arguments Execed {A}.
Arguments Running {A}.

Definition M (A : Type) : Type := state -> res A * state.

Definition ret {A} (a : A) : M A := fun s => (Done a, s).

Definition bind {A B} (m : M A) (k : A -> M B) : M B :=
  fun s =>
    match m s with
    | (Done a, s') => k a s'
    | (Raise e, s') => (Raise e, s')
    | (Execed, s') => (Execed, s')
    | (Running, s') => (Running, s')
    end.

Definition raise {A} (e : exn) : M A := fun s => (Raise e, s).

(** The state after the events [evs] have happened. *)
Definition log (s : state) (evs : list event) : state :=
  {| child_pid := child_pid s; old_tty := old_tty s;
     tty := tty s; trace := trace s ++ evs |}.

Definition emit (ev : event) : M unit := fun s => (Done tt, log s [ev]).

Definition set_tty (a : attrs) : M unit :=
  fun s => (Done tt, {| child_pid := child_pid s; old_tty := old_tty s;
                        tty := a; trace := trace s |}).

Definition set_child_pid (p : Z) : M unit :=
  fun s => (Done tt, {| child_pid := Some p; old_tty := old_tty s;
                        tty := tty s; trace := trace s |}).

Definition set_old_tty (a : attrs) : M unit :=
  fun s => (Done tt, {| child_pid := child_pid s; old_tty := Some a;
                        tty := tty s; trace := trace s |}).

Definition get {A} (f : state -> A) : M A := fun s => (Done (f s), s).

Declare Scope py_scope.
Delimit Scope py_scope with py.
Notation "x <- m ;; k" := (bind m (fun x => k))
  (at level 100, m at next level, right associativity) : py_scope.
Notation "m ;; k" := (bind m (fun _ => k))
  (at level 100, right associativity) : py_scope.
Open Scope py_scope.

(** [try: body except (OSError, IOError): handler] *)
Definition try_except_oserror {A} (body handler : M A) : M A :=
  fun s =>
    match body s with
    | (Raise (OSError _), s') => handler s'
    | r => r
    end.

(** [try: body except: handler], the bare clause, which also catches
    [SystemExit]. *)
Definition try_except_all {A} (body handler : M A) : M A :=
  fun s =>
    match body s with
    | (Raise _, s') => handler s'
    | r => r
    end.

(** [try: body finally: fin].  The clause runs when the body completes
    or raises; an exception of the clause replaces the pending one. *)
Definition try_finally {A} (body : M A) (fin : M unit) : M A :=
  fun s =>
    match body s with
    | (Done a, s') => (fin ;; ret a) s'
    | (Raise e, s') => (fin ;; raise e) s'
    | r => r
    end.

(** ** Signal handlers *)

(** Truth value of the global: [None] and [0] are false. *)
Definition truthy (p : option Z) : bool :=
  match p with
  | Some n => negb (n =? 0)
  | None => false
  end.

(** [os.kill] on the process's own child. *)
Definition os_kill (pid : Z) (sig : signal) : M unit := emit (EKill pid sig).

Definition sys_exit {A} (code : Z) : M A := raise (SystemExit code).

Definition handle_sigint : M unit :=
  p <- get child_pid ;;
  if truthy p then os_kill (default 0 p) SIGINT else ret tt.

Definition handle_sigterm : M unit :=
  p <- get child_pid ;;
  (if truthy p then os_kill (default 0 p) SIGTERM else ret tt) ;;
  sys_exit 0.

(** Both handlers are installed (lines 32-33) before the first call of
    [main]; every signal goes to its handler. *)
Definition handler_of (sig : signal) : M unit :=
  match sig with
  | SIGINT => handle_sigint
  | SIGTERM => handle_sigterm
  end.

Fixpoint deliver (l : list signal) : M unit :=
  match l with
  | [] => ret tt
  | sig :: rest => handler_of sig ;; deliver rest
  end.

(** A call: the handlers of the pending signals run first, and an
    exception of a handler leaves the call site; otherwise the call
    returns its value, leaving the events [ev], or raises [exc errno]. *)
Definition syscall {A} (c : call A) (exc : Z -> exn) (ev : A -> list event)
  : M A :=
  deliver (sigs c) ;;
  match out c with
  | Ok a => fun s => (Done a, log s (ev a))
  | Err e => raise (exc e)
  end.

(** ** The calls of [main] *)

(** [os.read(fd, 1024)]: at most [BUFSIZE] of the available bytes. *)
Definition os_read (ep : endpoint) (c : call bytes) : M bytes :=
  b <- syscall c OSError (fun b => [ERead ep (firstn BUFSIZE b)]) ;;
  ret (firstn BUFSIZE b).

(** [os.write(fd, data)]: a descriptor with room for [n] bytes takes
    the first [n] bytes of [data]; the call returns how many it took. *)
Definition os_write (ep : endpoint) (data : bytes) (c : call nat) : M nat :=
  n <- syscall c OSError (fun n => [EWrite ep (firstn n data)]) ;;
  ret (length (firstn n data)).

Definition stdout_flush (c : call unit) : M unit :=
  syscall c OSError (fun _ => [EFlush]).

Definition select_select (c : call (list endpoint)) (fd : Z)
  : M (list endpoint) :=
  syscall c OSError (fun _ => [ESelect [Stdin; Master fd] select_timeout_ms]).

Definition os_waitpid (p : option Z) (c : call (Z * Z)) : M (Z * Z) :=
  match p with
  | Some pid => syscall c OSError (fun _ => [EWaitpid pid WNOHANG])
  | None => raise TypeError
  end.

(** [os.execvp]: does not return when it succeeds. *)
Definition os_execvp (file : string) (argv : list string) (c : call unit)
  : M unit :=
  syscall c OSError (fun _ => [EExecvp file argv]) ;;
  fun s => (Execed, s).

Definition tcgetattr (c : call unit) : M attrs :=
  syscall c TermiosError (fun _ => []) ;;
  get tty.

Definition tty_setraw (c : call attrs) : M unit :=
  a <- syscall c TermiosError (fun _ => [ESetraw]) ;;
  set_tty a.

Definition set_blocking (ep : endpoint) (b : bool) (c : call unit) : M unit :=
  syscall c OSError (fun _ => [ESetBlocking ep b]).

(** [termios.tcsetattr(sys.stdin, termios.TCSADRAIN, old_tty)]; reading
    the local before it is bound raises. *)
Definition tcsetattr_old (c : call unit) : M unit :=
  o <- get old_tty ;;
  match o with
  | None => raise UnboundLocalError
  | Some a => syscall c TermiosError (fun _ => [ETcsetattr a]) ;; set_tty a
  end.

(** ** The relay loop *)

Definition endpoint_eqb (a b : endpoint) : bool :=
  match a, b with
  | Stdin, Stdin => true
  | Stdout, Stdout => true
  | Master x, Master y => x =? y
  | _, _ => false
  end.

(** [x in r] *)
Definition ready (x : endpoint) (r : list endpoint) : bool :=
  existsb (endpoint_eqb x) r.

(** [if data:] *)
Definition nonempty (data : bytes) : bool :=
  match data with
  | [] => false
  | _ :: _ => true
  end.

(** How a pass ends: at the bottom of the body, or at a [break]. *)
Inductive ctl := Next | Break.

(** Lines 62-67. *)
Definition relay_in (fd : Z) (it : iteration) : M unit :=
  try_except_oserror
    (data <- os_read Stdin (it_in_read it) ;;
     if nonempty data
     then os_write (Master fd) data (it_in_write it) ;; ret tt
     else ret tt)
    (ret tt).

(** Lines 71-77. *)
Definition relay_out (fd : Z) (it : iteration) : M ctl :=
  try_except_oserror
    (data <- os_read (Master fd) (it_out_read it) ;;
     (if nonempty data
      then os_write Stdout data (it_out_write it) ;;
           stdout_flush (it_out_flush it)
      else ret tt) ;;
     ret Next)
    (ret Break).

(** Lines 80-85. *)
Definition check_child (it : iteration) : M ctl :=
  try_except_all
    (p <- get child_pid ;;
     ps <- os_waitpid p (it_wait it) ;;
     if negb (fst ps =? 0) then ret Break else ret Next)
    (ret Break).

(** Lines 58-85, one pass. *)
Definition relay_pass (fd : Z) (it : iteration) : M ctl :=
  r <- select_select (it_select it) fd ;;
  (if ready Stdin r then relay_in fd it else ret tt) ;;
  c <- (if ready (Master fd) r then relay_out fd it else ret Next) ;;
  match c with
  | Break => ret Break
  | Next => check_child it
  end.

(** [while True:] over the observed passes. *)
Fixpoint relay_loop (fd : Z) (its : list iteration) : M unit :=
  match its with
  | [] => fun s => (Running, s)
  | it :: rest =>
      c <- relay_pass fd it ;;
      match c with
      | Break => ret tt
      | Next => relay_loop fd rest
      end
  end.

(** ** [main] and the process *)

(** Lines 49-54: save the terminal settings, raw mode, non-blocking
    descriptors. *)
Definition startup (fd : Z) (sc : script) : M unit :=
  a <- tcgetattr (s_getattr sc) ;;
  set_old_tty a ;;
  tty_setraw (s_setraw sc) ;;
  set_blocking (Master fd) false (s_block_master sc) ;;
  set_blocking Stdin false (s_block_stdin sc).

(** Lines 89-92: the body of the [finally] clause. *)
Definition restore (sc : script) : M unit :=
  try_except_all (tcsetattr_old (s_restore sc)) (ret tt).

(** Lines 47-92: the parent side. *)
Definition parent (fd : Z) (sc : script) : M unit :=
  try_finally
    (startup fd sc ;; relay_loop fd (s_loop sc))
    (restore sc).

Definition main (sc : script) : M unit :=
  let shell := default "/bin/bash"%string (environ sc !! "SHELL"%string) in
  pm <- syscall (s_fork sc) OSError (fun _ => []) ;;
  set_child_pid (fst pm) ;;
  if fst pm =? 0
  then os_execvp shell [shell; "--login"%string] (s_exec sc)
  else parent (snd pm) sc.

(** The status the interpreter exits with after [main()]: 0 when it
    returns, the code of an uncaught [SystemExit], 1 after any other
    uncaught exception. *)
Definition exit_status (r : res unit) : option Z :=
  match r with
  | Done _ => Some 0
  | Raise (SystemExit c) => Some (Z.land c 255)
  | Raise _ => Some 1
  | Execed => None
  | Running => None
  end.

Definition run (sc : script) (a : attrs) : res unit * state :=
  main sc (initial a).

(** ** Vocabulary of the statements *)

Definition is_sigterm (sig : signal) : bool :=
  match sig with
  | SIGTERM => true
  | SIGINT => false
  end.

Definition has_sigterm (l : list signal) : bool := existsb is_sigterm l.

Definition is_err {A} (o : outcome A) : bool :=
  match o with
  | Ok _ => false
  | Err _ => true
  end.

(** The call is not cut off by SIGTERM and does not fail. *)
Definition returns {A} (c : call A) : bool :=
  negb (has_sigterm (sigs c)) && negb (is_err (out c)).

(** No SIGTERM is handled during the pass. *)
Definition calm (it : iteration) : bool :=
  negb (has_sigterm (sigs (it_select it)) || has_sigterm (sigs (it_in_read it))
        || has_sigterm (sigs (it_in_write it))
        || has_sigterm (sigs (it_out_read it))
        || has_sigterm (sigs (it_out_write it))
        || has_sigterm (sigs (it_out_flush it))
        || has_sigterm (sigs (it_wait it))).

(** The write is not cut off by SIGTERM and the descriptor has room for
    a whole buffer, so that every chunk goes through undivided. *)
Definition accepts (c : call nat) : bool :=
  negb (has_sigterm (sigs c))
  && match out c with
     | Ok n => (BUFSIZE <=? n)%nat
     | Err _ => false
     end.

(** The PTY-master direction of the pass raises [OSError]: at the read,
    or at the write or the flush that follow a non-empty read. *)
Definition master_fails (it : iteration) : bool :=
  match out (it_out_read it) with
  | Err _ => true
  | Ok b => nonempty (firstn BUFSIZE b)
            && (is_err (out (it_out_write it))
                || is_err (out (it_out_flush it)))
  end.

(** Among the failures of the PTY-master direction, the one of the read
    for a reason that is not transient. *)
Definition master_read_fails_hard (it : iteration) : bool :=
  match out (it_out_read it) with
  | Err e => negb (transient e)
  | Ok _ => false
  end.

(** [waitpid] reports the child of the pass as gone. *)
Definition reaped (it : iteration) : bool :=
  match out (it_wait it) with
  | Ok (q, _) => negb (q =? 0)
  | Err _ => false
  end.

(** The [waitpid] step of the pass raises: the call fails, or SIGTERM
    is handled at it. *)
Definition wait_raises (it : iteration) : bool :=
  has_sigterm (sigs (it_wait it)) || is_err (out (it_wait it)).

(** The controlling input of the pass fails: the read raises, or the
    write of what was read does. *)
Definition input_fails (it : iteration) : bool :=
  match out (it_in_read it) with
  | Err _ => true
  | Ok b => nonempty (firstn BUFSIZE b) && is_err (out (it_in_write it))
  end.

(** The pass as it would be had [select] not reported [x]. *)
Definition unready (x : endpoint) (it : iteration) : iteration :=
  {| it_select :=
       {| sigs := sigs (it_select it);
          out := match out (it_select it) with
                 | Ok r => Ok (List.filter (fun y => negb (endpoint_eqb x y)) r)
                 | Err e => Err e
                 end |};
     it_in_read := it_in_read it; it_in_write := it_in_write it;
     it_out_read := it_out_read it; it_out_write := it_out_write it;
     it_out_flush := it_out_flush it; it_wait := it_wait it |}.

(** The input is at end of file and nothing else happens in the pass. *)
Definition eof_only (fd : Z) (it : iteration) : bool :=
  calm it
  && match out (it_select it), out (it_in_read it), out (it_wait it) with
     | Ok r, Ok [], Ok (q, _) => negb (ready (Master fd) r) && (q =? 0)
     | _, _, _ => false
     end.

Definition with_loop (sc : script) (its : list iteration) : script :=
  {| environ := environ sc; s_fork := s_fork sc; s_exec := s_exec sc;
     s_getattr := s_getattr sc; s_setraw := s_setraw sc;
     s_block_master := s_block_master sc; s_block_stdin := s_block_stdin sc;
     s_loop := its; s_restore := s_restore sc |}.

Definition with_restore (sc : script) (c : call unit) : script :=
  {| environ := environ sc; s_fork := s_fork sc; s_exec := s_exec sc;
     s_getattr := s_getattr sc; s_setraw := s_setraw sc;
     s_block_master := s_block_master sc; s_block_stdin := s_block_stdin sc;
     s_loop := s_loop sc; s_restore := c |}.

(** The events of handling the signals [l] while the global is [p]:
    one [kill] per signal when a child is registered, up to and
    including the first SIGTERM. *)
Fixpoint handled (p : option Z) (l : list signal) : list event :=
  match l with
  | [] => []
  | sig :: rest =>
      (if truthy p then [EKill (default 0 p) sig] else [])
      ++ (if is_sigterm sig then [] else handled p rest)
  end.

(** The bytes read from, and written to, an endpoint along a trace. *)
Fixpoint reads (ep : endpoint) (tr : list event) : bytes :=
  match tr with
  | [] => []
  | ERead ep' d :: rest =>
      (if endpoint_eqb ep ep' then d else []) ++ reads ep rest
  | _ :: rest => reads ep rest
  end.

Fixpoint writes (ep : endpoint) (tr : list event) : bytes :=
  match tr with
  | [] => []
  | EWrite ep' d :: rest =>
      (if endpoint_eqb ep ep' then d else []) ++ writes ep rest
  | _ :: rest => writes ep rest
  end.

(** The chunks that went through [os.write], in order. *)
Fixpoint chunks (tr : list event) : list bytes :=
  match tr with
  | [] => []
  | EWrite _ d :: rest => d :: chunks rest
  | _ :: rest => chunks rest
  end.

(** The attributes [tcsetattr] set, in order. *)
Fixpoint restores (tr : list event) : list attrs :=
  match tr with
  | [] => []
  | ETcsetattr a :: rest => a :: restores rest
  | _ :: rest => restores rest
  end.

(** The [waitpid] calls that returned, in order. *)
Fixpoint waits (tr : list event) : list (Z * Z) :=
  match tr with
  | [] => []
  | EWaitpid p o :: rest => (p, o) :: waits rest
  | _ :: rest => waits rest
  end.

(** The signals sent with [os.kill], in order. *)
Fixpoint kills (tr : list event) : list (Z * signal) :=
  match tr with
  | [] => []
  | EKill p sig :: rest => (p, sig) :: kills rest
  | _ :: rest => kills rest
  end.
(** The events that happened between the states [s] and [s']. *)
Definition since (s s' : state) : list event :=
  skipn (length (trace s)) (trace s').

(** The call as it goes when no SIGINT arrives at it. *)
Definition deaf {A} (c : call A) : call A :=
  {| sigs := List.filter is_sigterm (sigs c); out := out c |}.

(** The pass as it goes when no SIGINT arrives during it. *)
Definition without_sigint (it : iteration) : iteration :=
  {| it_select := deaf (it_select it); it_in_read := deaf (it_in_read it);
     it_in_write := deaf (it_in_write it);
     it_out_read := deaf (it_out_read it);
     it_out_write := deaf (it_out_write it);
     it_out_flush := deaf (it_out_flush it); it_wait := deaf (it_wait it) |}.

(** The trace without its [os.kill] events. *)
Fixpoint no_kills (tr : list event) : list event :=
  match tr with
  | [] => []
  | EKill _ _ :: rest => no_kills rest
  | ev :: rest => ev :: no_kills rest
  end.

(** No SIGTERM is handled on the input side of the pass. *)
Definition input_calm (it : iteration) : bool :=
  negb (has_sigterm (sigs (it_in_read it))
        || has_sigterm (sigs (it_in_write it))).

(** SIGTERM has been sent to a child along the trace. *)
Definition sigterm_sent (tr : list event) : bool :=
  existsb (fun k => is_sigterm (snd k)) (kills tr).

(** ** Sample environments *)

(** A call without signals that returns [a]. *)
Definition quiet {A} (a : A) : call A := Call [] (Ok a).

(** A call without signals that fails with [errno]. *)
Definition failing {A} (errno : Z) : call A := Call [] (Err errno).

(** A pass in which nothing is ready and the child is still there. *)
Definition idle : iteration :=
  {| it_select := quiet []; it_in_read := quiet []; it_in_write := quiet BUFSIZE;
     it_out_read := quiet []; it_out_write := quiet BUFSIZE;
     it_out_flush := quiet tt; it_wait := quiet (0, 0) |}.

(** SIGTERM arrives while the process waits in [select]. *)
Definition sigterm_at_select : iteration :=
  {| it_select := Call [SIGTERM] (Ok []); it_in_read := quiet [];
     it_in_write := quiet BUFSIZE; it_out_read := quiet [];
     it_out_write := quiet BUFSIZE; it_out_flush := quiet tt;
     it_wait := quiet (0, 0) |}.

(** The bytes [b] are typed; the write to the master goes as [w]. *)
Definition typed (b : bytes) (w : call nat) : iteration :=
  {| it_select := quiet [Stdin]; it_in_read := quiet b; it_in_write := w;
     it_out_read := quiet []; it_out_write := quiet BUFSIZE;
     it_out_flush := quiet tt; it_wait := quiet (0, 0) |}.

(** The shell prints [b]; the write to the output goes as [w]. *)
Definition printed (b : bytes) (w : call nat) : iteration :=
  {| it_select := quiet [Master 5]; it_in_read := quiet [];
     it_in_write := quiet BUFSIZE; it_out_read := quiet b; it_out_write := w;
     it_out_flush := quiet tt; it_wait := quiet (0, 0) |}.

(** The input is reported readable and its read fails with [errno]. *)
Definition input_error (errno : Z) : iteration :=
  {| it_select := quiet [Stdin]; it_in_read := failing errno;
     it_in_write := quiet BUFSIZE; it_out_read := quiet [];
     it_out_write := quiet BUFSIZE; it_out_flush := quiet tt;
     it_wait := quiet (0, 0) |}.

(** Nothing is ready and [waitpid] reports child 1234 as exited. *)
Definition child_gone : iteration :=
  {| it_select := quiet []; it_in_read := quiet []; it_in_write := quiet BUFSIZE;
     it_out_read := quiet []; it_out_write := quiet BUFSIZE;
     it_out_flush := quiet tt; it_wait := quiet (1234, 0) |}.

(** The master is reported readable and its read fails with [errno]. *)
Definition master_error (errno : Z) : iteration :=
  {| it_select := quiet [Master 5]; it_in_read := quiet [];
     it_in_write := quiet BUFSIZE; it_out_read := failing errno;
     it_out_write := quiet BUFSIZE; it_out_flush := quiet tt;
     it_wait := quiet (0, 0) |}.

(** Nothing is ready and SIGTERM arrives during [waitpid]. *)
Definition sigterm_at_wait : iteration :=
  {| it_select := quiet []; it_in_read := quiet [];
     it_in_write := quiet BUFSIZE; it_out_read := quiet [];
     it_out_write := quiet BUFSIZE; it_out_flush := quiet tt;
     it_wait := Call [SIGTERM] (Ok (0, 0)) |}.

(** [select] fails with [errno]. *)
Definition select_error (errno : Z) : iteration :=
  {| it_select := failing errno; it_in_read := quiet [];
     it_in_write := quiet BUFSIZE; it_out_read := quiet [];
     it_out_write := quiet BUFSIZE; it_out_flush := quiet tt;
     it_wait := quiet (0, 0) |}.

(** The input is at end of file: readable, and the read returns
    nothing. *)
Definition input_eof : iteration :=
  {| it_select := quiet [Stdin]; it_in_read := quiet [];
     it_in_write := quiet BUFSIZE; it_out_read := quiet [];
     it_out_write := quiet BUFSIZE; it_out_flush := quiet tt;
     it_wait := quiet (0, 0) |}.

(** Nothing is ready and [waitpid] itself fails with [errno]. *)
Definition wait_error (errno : Z) : iteration :=
  {| it_select := quiet []; it_in_read := quiet []; it_in_write := quiet BUFSIZE;
     it_out_read := quiet []; it_out_write := quiet BUFSIZE;
     it_out_flush := quiet tt; it_wait := failing errno |}.

(** The bytes "ls". *)
Definition ls : bytes := [Byte.x6c; Byte.x73].

(** A run on the parent side: child 1234 on master descriptor 5. *)
Definition session (its : list iteration) : script :=
  {| environ := ∅; s_fork := quiet (1234, 5); s_exec := quiet tt;
     s_getattr := quiet tt; s_setraw := quiet [0]; s_block_master := quiet tt;
     s_block_stdin := quiet tt; s_loop := its; s_restore := quiet tt |}.

(** A run on the child side of the fork, with environment [env]. *)
Definition child_side (env : gmap string string) : script :=
  {| environ := env; s_fork := quiet (0, 5); s_exec := quiet tt;
     s_getattr := quiet tt; s_setraw := quiet [0]; s_block_master := quiet tt;
     s_block_stdin := quiet tt; s_loop := []; s_restore := quiet tt |}.

(** The state in which [session] enters the loop when the terminal had
    the attributes [a]. *)
Definition in_loop (a : attrs) : state :=
  {| child_pid := Some 1234; old_tty := Some a; tty := [0]; trace := [] |}.

(** ** The monad and the calls, equationally *)

Lemma log_nil (s : state) : log s [] = s.
Proof. destruct s; unfold log; simpl; now rewrite app_nil_r. Qed.

Lemma log_log (s : state) (e1 e2 : list event) :
  log (log s e1) e2 = log s (e1 ++ e2).
Proof. unfold log; simpl; now rewrite app_assoc. Qed.

Lemma child_pid_log (s : state) (evs : list event) :
  child_pid (log s evs) = child_pid s.
Proof. reflexivity. Qed.

Lemma log_inj (s : state) (e1 e2 : list event) :
  log s e1 = log s e2 -> e1 = e2.
Proof.
  intro H. apply (f_equal trace) in H; simpl in H.
  now apply app_inv_head in H.
Qed.

Lemma deliver_eq (l : list signal) (s : state) :
  deliver l s =
  (if has_sigterm l then Raise (SystemExit 0) else Done tt,
   log s (handled (child_pid s) l)).
Proof.
  revert s; induction l as [|sig rest IH]; intro s; simpl.
  - now rewrite log_nil.
  - destruct sig; simpl; unfold bind, handle_sigint, handle_sigterm, bind, get;
      destruct (truthy (child_pid s)) eqn:T; simpl.
    + rewrite IH; simpl. now rewrite log_log.
    + now rewrite IH.
    + reflexivity.
    + unfold sys_exit, raise. now rewrite log_nil.
Qed.

Lemma syscall_eq {A} (c : call A) (exc : Z -> exn) (ev : A -> list event)
      (s : state) :
  syscall c exc ev s =
  if has_sigterm (sigs c)
  then (Raise (SystemExit 0), log s (handled (child_pid s) (sigs c)))
  else match out c with
       | Ok a => (Done a, log s (handled (child_pid s) (sigs c) ++ ev a))
       | Err e => (Raise (exc e), log s (handled (child_pid s) (sigs c)))
       end.
Proof.
  unfold syscall, bind. rewrite deliver_eq.
  destruct (has_sigterm (sigs c)); [reflexivity|].
  destruct (out c); simpl; [now rewrite log_log | reflexivity].
Qed.

Lemma handled_unregistered (p : option Z) (l : list signal) :
  truthy p = false -> handled p l = [].
Proof.
  intro T; induction l as [|sig rest IH]; simpl; [reflexivity|].
  rewrite T; destruct sig; simpl; [exact IH | reflexivity].
Qed.

Lemma sigints_no_sigterm (n : nat) : has_sigterm (repeat SIGINT n) = false.
Proof. induction n; simpl; auto. Qed.

(** ** Traces *)

Lemma reads_app (ep : endpoint) (a b : list event) :
  reads ep (a ++ b) = reads ep a ++ reads ep b.
Proof.
  induction a as [|e a IH]; simpl; [reflexivity|].
  destruct e; simpl; rewrite ?IH, ?app_assoc; reflexivity.
Qed.

Lemma writes_app (ep : endpoint) (a b : list event) :
  writes ep (a ++ b) = writes ep a ++ writes ep b.
Proof.
  induction a as [|e a IH]; simpl; [reflexivity|].
  destruct e; simpl; rewrite ?IH, ?app_assoc; reflexivity.
Qed.

Lemma chunks_app (a b : list event) : chunks (a ++ b) = chunks a ++ chunks b.
Proof.
  induction a as [|e a IH]; simpl; [reflexivity|].
  destruct e; simpl; rewrite ?IH; reflexivity.
Qed.

Lemma restores_app (a b : list event) :
  restores (a ++ b) = restores a ++ restores b.
Proof.
  induction a as [|e a IH]; simpl; [reflexivity|].
  destruct e; simpl; rewrite ?IH; reflexivity.
Qed.

Lemma waits_app (a b : list event) : waits (a ++ b) = waits a ++ waits b.
Proof.
  induction a as [|e a IH]; simpl; [reflexivity|].
  destruct e; simpl; rewrite ?IH; reflexivity.
Qed.

Lemma kills_app (a b : list event) : kills (a ++ b) = kills a ++ kills b.
Proof.
  induction a as [|e a IH]; simpl; [reflexivity|].
  destruct e; simpl; rewrite ?IH; reflexivity.
Qed.

Lemma handled_only_kills (p : option Z) (l : list signal) :
  (forall ep, reads ep (handled p l) = [])
  /\ (forall ep, writes ep (handled p l) = [])
  /\ chunks (handled p l) = [] /\ restores (handled p l) = []
  /\ waits (handled p l) = [].
Proof.
  induction l as [|sig rest (R & W & C & T & Wt)]; simpl; [now auto|].
  destruct (truthy p), sig; simpl; auto.
Qed.

Lemma reads_handled ep p l : reads ep (handled p l) = [].
Proof. apply handled_only_kills. Qed.

Lemma writes_handled ep p l : writes ep (handled p l) = [].
Proof. apply handled_only_kills. Qed.

Lemma chunks_handled p l : chunks (handled p l) = [].
Proof. apply handled_only_kills. Qed.

Lemma restores_handled p l : restores (handled p l) = [].
Proof. apply handled_only_kills. Qed.

Lemma waits_handled p l : waits (handled p l) = [].
Proof. apply handled_only_kills. Qed.

Create Rewrite HintDb tr.
#[local] Hint Rewrite reads_app writes_app chunks_app restores_app waits_app
  reads_handled writes_handled chunks_handled restores_handled waits_handled
  app_nil_r Z.eqb_refl : tr.

Lemma handled_sigterm_last (p : Z) (l : list signal) :
  p <> 0 -> has_sigterm l = true ->
  exists evs, handled (Some p) l = evs ++ [EKill p SIGTERM].
Proof.
  intros P. apply Z.eqb_neq in P.
  induction l as [|sig rest IH]; simpl; [discriminate|]. rewrite P; simpl.
  destruct sig; simpl; intro H.
  - destruct (IH H) as (evs & E). exists (EKill p SIGINT :: evs).
    now rewrite E.
  - now exists [].
Qed.

Lemma sigterm_sent_app (a b : list event) :
  sigterm_sent (a ++ b) = sigterm_sent a || sigterm_sent b.
Proof. unfold sigterm_sent. now rewrite kills_app, existsb_app. Qed.

Lemma sigterm_sent_handled (p : option Z) (l : list signal) :
  has_sigterm l = false -> sigterm_sent (handled p l) = false.
Proof.
  induction l as [|sig rest IH]; simpl; [reflexivity|].
  destruct sig; simpl; [|discriminate]. intro H.
  rewrite sigterm_sent_app, (IH H). now destruct (truthy p).
Qed.

Lemma since_log (s : state) (evs : list event) : since s (log s evs) = evs.
Proof. unfold since, log; simpl. now rewrite skipn_app, Nat.sub_diag, skipn_all. Qed.

Lemma chunk_fits (n : nat) (b : bytes) :
  (length (firstn n (firstn BUFSIZE b)) <= BUFSIZE)%nat.
Proof.
  rewrite !length_firstn. lia.
Qed.

Lemma chunk_whole (n : nat) (b : bytes) :
  (BUFSIZE <=? n)%nat = true -> firstn n (firstn BUFSIZE b) = firstn BUFSIZE b.
Proof.
  intros H%Nat.leb_le. apply firstn_all2. rewrite length_firstn. lia.
Qed.

Lemma nonempty_false (d : bytes) : nonempty d = false -> d = [].
Proof. now destruct d. Qed.

(** ** One pass of the loop, by cases *)

Create HintDb py discriminated.
#[local] Hint Unfold relay_pass relay_in relay_out check_child
  try_except_oserror try_except_all try_finally bind os_read os_write
  stdout_flush select_select os_waitpid ret raise get : py.

(** Splits a pass along the outcomes of its calls. *)
Ltac crunch :=
  repeat first
    [ rewrite syscall_eq
    | rewrite log_log
    | rewrite child_pid_log
    | progress cbn beta iota
    | match goal with
      | H : ?x = _ |- context [if ?x then _ else _] => rewrite H
      | H : ?x = _ |- context [match ?x with _ => _ end] => rewrite H
      | |- context [if has_sigterm ?l then _ else _] =>
          destruct (has_sigterm l) eqn:?
      | |- context [match out ?c with _ => _ end] => destruct (out c) eqn:?
      | |- context [match child_pid ?s with _ => _ end] =>
          destruct (child_pid s) eqn:?
      | |- context [if ?b then _ else _] => destruct b eqn:?
      end ].

Lemma relay_pass_log (fd : Z) (it : iteration) (s : state) :
  exists evs, snd (relay_pass fd it s) = log s evs /\ restores evs = [].
Proof.
  repeat autounfold with py. crunch.
  all: eexists; split; [reflexivity | now autorewrite with tr].
Qed.

Lemma relay_pass_fst (fd : Z) (it : iteration) (s1 s2 : state) :
  child_pid s1 = child_pid s2 ->
  fst (relay_pass fd it s1) = fst (relay_pass fd it s2).
Proof.
  intro E. repeat autounfold with py. rewrite !syscall_eq.
  crunch; try reflexivity; congruence.
Qed.

Lemma relay_pass_ends (fd : Z) (it : iteration) (s : state) :
  fst (relay_pass fd it s) <> Running /\ fst (relay_pass fd it s) <> Execed.
Proof.
  repeat autounfold with py. crunch; split; discriminate.
Qed.

(** A pass in which SIGTERM is sent to the child ends at once: with
    [SystemExit(0)], or at the [break] of the bare [except]. *)
Lemma relay_pass_sigterm (fd : Z) (it : iteration) (s : state) :
  exists evs,
    snd (relay_pass fd it s) = log s evs
    /\ (sigterm_sent evs = true ->
        fst (relay_pass fd it s) = Raise (SystemExit 0)
        \/ fst (relay_pass fd it s) = Done Break).
Proof.
  repeat autounfold with py. crunch.
  all: eexists; split; [reflexivity|]; intro H.
  all: first
         [ now left
         | now right
         | exfalso; repeat rewrite sigterm_sent_app in H;
           repeat (rewrite sigterm_sent_handled in H by assumption);
           simpl in H; discriminate ].
Qed.

(** ** One pass: the bytes *)

Lemma accepts_inv (c : call nat) :
  accepts c = true ->
  has_sigterm (sigs c) = false
  /\ exists n, out c = Ok n /\ (BUFSIZE <=? n)%nat = true.
Proof.
  unfold accepts. intros [H1 H2]%andb_true_iff. apply negb_true_iff in H1.
  destruct (out c) as [n|]; [|discriminate]. eauto.
Qed.

(** Brings the projections of a trace to normal form. *)
Ltac tidy :=
  autorewrite with tr;
  cbn [reads writes chunks restores waits endpoint_eqb app];
  autorewrite with tr.

Lemma relay_pass_chunks (fd : Z) (it : iteration) (s : state) :
  Forall (fun d => (length d <= BUFSIZE)%nat)
         (chunks (since s (snd (relay_pass fd it s)))).
Proof.
  repeat autounfold with py. crunch.
  all: cbn [snd]; rewrite since_log; tidy.
  all: repeat match goal with
              | |- Forall _ _ => constructor
              | |- (length _ <= BUFSIZE)%nat => apply chunk_fits
              end.
Qed.

Lemma relay_pass_in (fd : Z) (it : iteration) (s : state) :
  accepts (it_in_write it) = true ->
  writes (Master fd) (since s (snd (relay_pass fd it s)))
  = reads Stdin (since s (snd (relay_pass fd it s))).
Proof.
  intros (S & n & O & N)%accepts_inv.
  repeat autounfold with py. crunch.
  all: cbn [snd]; rewrite since_log; tidy.
  all: try reflexivity.
  all: try (now apply chunk_whole).
  all: try (symmetry; now apply nonempty_false).
  all: congruence.
Qed.

Lemma relay_pass_out (fd : Z) (it : iteration) (s : state) :
  accepts (it_out_write it) = true ->
  writes Stdout (since s (snd (relay_pass fd it s)))
  = reads (Master fd) (since s (snd (relay_pass fd it s))).
Proof.
  intros (S & n & O & N)%accepts_inv.
  repeat autounfold with py. crunch.
  all: cbn [snd]; rewrite since_log; tidy.
  all: try reflexivity.
  all: try (now apply chunk_whole).
  all: try (symmetry; now apply nonempty_false).
  all: congruence.
Qed.

(** ** The loop *)

Lemma relay_loop_log (fd : Z) (its : list iteration) (s : state) :
  exists evs, snd (relay_loop fd its s) = log s evs /\ restores evs = [].
Proof.
  revert s; induction its as [|it rest IH]; intro s; simpl.
  - exists []. now rewrite log_nil.
  - unfold bind. destruct (relay_pass_log fd it s) as (e1 & E1 & R1).
    destruct (relay_pass fd it s) as [r s1]; simpl in E1; subst s1.
    destruct r as [[]| | |]; try (exists e1; now split).
    destruct (IH (log s e1)) as (e2 & E2 & R2).
    exists (e1 ++ e2). rewrite E2, log_log, restores_app, R1, R2. now split.
Qed.

Lemma relay_loop_not_execed (fd : Z) (its : list iteration) (s : state) :
  fst (relay_loop fd its s) <> Execed.
Proof.
  revert s; induction its as [|it rest IH]; intro s; simpl; [discriminate|].
  unfold bind. destruct (relay_pass_ends fd it s) as [_ NE].
  destruct (relay_pass fd it s) as [[[]| | |] s1]; simpl in *;
    try discriminate; [apply IH | congruence].
Qed.

Lemma relay_loop_fst (fd : Z) (its : list iteration) (s1 s2 : state) :
  child_pid s1 = child_pid s2 ->
  fst (relay_loop fd its s1) = fst (relay_loop fd its s2).
Proof.
  revert s1 s2; induction its as [|it rest IH]; intros s1 s2 E; simpl.
  - reflexivity.
  - unfold bind. pose proof (relay_pass_fst fd it s1 s2 E) as F.
    destruct (relay_pass_log fd it s1) as (e1 & E1 & _).
    destruct (relay_pass_log fd it s2) as (e2 & E2 & _).
    destruct (relay_pass fd it s1) as [r1 t1], (relay_pass fd it s2) as [r2 t2].
    simpl in *; subst r2 t1 t2.
    destruct r1 as [[]| | |]; try reflexivity.
    apply IH. now rewrite !child_pid_log.
Qed.

Lemma relay_loop_app (fd : Z) (pre post : list iteration) (s : state) :
  relay_loop fd (pre ++ post) s =
  match relay_loop fd pre s with
  | (Running, s') => relay_loop fd post s'
  | r => r
  end.
Proof.
  revert s; induction pre as [|it rest IH]; intro s; simpl.
  - reflexivity.
  - unfold bind. destruct (relay_pass_ends fd it s) as [NR _].
    destruct (relay_pass fd it s) as [[[]| | |] s1]; simpl in *;
      try reflexivity; [apply IH | congruence].
Qed.

(** ** The parent side *)

Lemma run_parent (sc : script) (a : attrs) (p fd : Z) :
  out (s_fork sc) = Ok (p, fd) -> p <> 0 ->
  has_sigterm (sigs (s_fork sc)) = false ->
  run sc a =
  parent fd sc {| child_pid := Some p; old_tty := None; tty := a; trace := [] |}.
Proof.
  intros F P S. unfold run, main, bind. rewrite syscall_eq, S, F; simpl.
  apply Z.eqb_neq in P; rewrite P.
  now rewrite handled_unregistered by reflexivity.
Qed.

(** The [finally] clause never raises; it sets the saved attributes
    when there are some and the call goes through. *)
Lemma restore_eq (sc : script) (s : state) :
  restore sc s =
  (Done tt,
   match old_tty s with
   | None => s
   | Some a =>
       if returns (s_restore sc)
       then {| child_pid := child_pid s; old_tty := old_tty s; tty := a;
               trace := trace s ++ handled (child_pid s) (sigs (s_restore sc))
                                ++ [ETcsetattr a] |}
       else log s (handled (child_pid s) (sigs (s_restore sc)))
   end).
Proof.
  unfold restore, try_except_all, tcsetattr_old, bind, get, ret, raise, returns.
  destruct (old_tty s) as [a|] eqn:O; [|reflexivity].
  rewrite syscall_eq.
  destruct (has_sigterm (sigs (s_restore sc))); simpl; [reflexivity|].
  destruct (out (s_restore sc)); simpl; [|reflexivity].
  unfold set_tty, log; simpl. now rewrite O.
Qed.

(** What the startup leaves behind: the result, the terminal and the
    saved attributes may change, the global does not, and nothing is
    restored. *)
Lemma startup_log (fd : Z) (sc : script) (s : state) :
  exists evs,
    child_pid (snd (startup fd sc s)) = child_pid s
    /\ trace (snd (startup fd sc s)) = trace s ++ evs
    /\ restores evs = []
    /\ (returns (s_getattr sc) = true ->
        old_tty (snd (startup fd sc s)) = Some (tty s))
    /\ fst (startup fd sc s) <> Running /\ fst (startup fd sc s) <> Execed.
Proof.
  unfold startup, tcgetattr, tty_setraw, set_blocking, set_old_tty, set_tty,
    returns, bind, get.
  crunch; simpl;
    eexists; (split; [reflexivity|]);
    (split; [unfold log; simpl; rewrite <- ?app_assoc; reflexivity|]);
    autorewrite with tr; repeat split; try discriminate; auto.
Qed.

Lemma body_log (fd : Z) (sc : script) (s : state) :
  exists evs,
    child_pid (snd ((startup fd sc ;; relay_loop fd (s_loop sc)) s))
    = child_pid s
    /\ trace (snd ((startup fd sc ;; relay_loop fd (s_loop sc)) s))
       = trace s ++ evs
    /\ restores evs = []
    /\ (returns (s_getattr sc) = true ->
        old_tty (snd ((startup fd sc ;; relay_loop fd (s_loop sc)) s))
        = Some (tty s))
    /\ fst ((startup fd sc ;; relay_loop fd (s_loop sc)) s) <> Execed.
Proof.
  unfold bind.
  destruct (startup_log fd sc s) as (e1 & C1 & T1 & R1 & O1 & _ & X1).
  destruct (startup fd sc s) as [r s1]; simpl in *.
  destruct r; try (exists e1; repeat split; auto; discriminate).
  destruct (relay_loop_log fd (s_loop sc) s1) as (e2 & E2 & R2).
  pose proof (relay_loop_not_execed fd (s_loop sc) s1) as X2.
  destruct (relay_loop fd (s_loop sc) s1) as [r2 s2]; simpl in *; subst s2.
  exists (e1 ++ e2); simpl. rewrite T1, restores_app, R1, R2, app_assoc.
  repeat split; auto.
Qed.

(** The [finally] clause does not change how [main] ends. *)
Lemma parent_fst (fd : Z) (sc : script) (s : state) :
  fst (parent fd sc s)
  = fst ((startup fd sc ;; relay_loop fd (s_loop sc)) s).
Proof.
  unfold parent, try_finally.
  destruct ((startup fd sc ;; relay_loop fd (s_loop sc)) s) as [[u|e| |] s1];
    simpl; try reflexivity;
    unfold bind at 1; rewrite restore_eq; reflexivity.
Qed.

Lemma parent_snd (fd : Z) (sc : script) (s : state) :
  fst (parent fd sc s) <> Running ->
  snd (parent fd sc s)
  = snd (restore sc (snd ((startup fd sc ;; relay_loop fd (s_loop sc)) s))).
Proof.
  intro NR. rewrite parent_fst in NR. revert NR.
  destruct (body_log fd sc s) as (_ & _ & _ & _ & _ & NX).
  unfold parent, try_finally.
  destruct ((startup fd sc ;; relay_loop fd (s_loop sc)) s) as [[u|e| |] s1];
    simpl in *; intro NR; try congruence;
    unfold bind at 1; rewrite restore_eq; reflexivity.
Qed.

Lemma startup_done (fd : Z) (sc : script) (s : state) :
  fst (startup fd sc s) = Done tt ->
  old_tty (snd (startup fd sc s)) = Some (tty s).
Proof.
  unfold startup, tcgetattr, tty_setraw, set_blocking, set_old_tty, set_tty,
    bind, get.
  crunch; simpl; intro; try discriminate; reflexivity.
Qed.

Lemma run_running (sc : script) (a : attrs) (p fd : Z) :
  out (s_fork sc) = Ok (p, fd) ->
  fst (run sc a) = Running ->
  p <> 0 /\ has_sigterm (sigs (s_fork sc)) = false.
Proof.
  intros F. unfold run, main, os_execvp, bind. rewrite syscall_eq, F.
  destruct (has_sigterm (sigs (s_fork sc))); simpl; [discriminate|].
  destruct (p =? 0) eqn:P.
  - rewrite syscall_eq. crunch; simpl; discriminate.
  - intros _. apply Z.eqb_neq in P. now split.
Qed.

(** A run whose first passes [pre] leave it in the loop goes on with
    the remaining passes, inside the [try], from a state in which the
    child is registered and the attributes are saved. *)
Lemma run_after_prefix (sc : script) (a : attrs) (p fd : Z)
      (pre rest : list iteration) :
  out (s_fork sc) = Ok (p, fd) ->
  s_loop sc = pre ++ rest ->
  fst (run (with_loop sc pre) a) = Running ->
  exists s2,
    child_pid s2 = Some p /\ p <> 0 /\ old_tty s2 = Some a
    /\ restores (trace s2) = []
    /\ run sc a = try_finally (relay_loop fd rest) (restore sc) s2.
Proof.
  intros F L R.
  destruct (run_running (with_loop sc pre) a p fd F R) as [P S].
  rewrite (run_parent (with_loop sc pre) a p fd F P S), parent_fst in R.
  rewrite (run_parent sc a p fd F P S).
  unfold parent. rewrite L.
  change (startup fd (with_loop sc pre)) with (startup fd sc) in R.
  simpl s_loop in R. unfold try_finally, bind in *.
  set (s0 := {| child_pid := Some p; old_tty := None; tty := a; trace := [] |})
    in *.
  destruct (startup_log fd sc s0) as (e1 & C1 & T1 & R1 & _ & NR & _).
  pose proof (startup_done fd sc s0) as O1.
  destruct (startup fd sc s0) as [[[]|e| |] s1]; simpl in *;
    try discriminate; try congruence.
  rewrite relay_loop_app.
  destruct (relay_loop_log fd pre s1) as (e2 & E2 & R2).
  destruct (relay_loop fd pre s1) as [r s2]; simpl in *; subst r s2.
  exists (log s1 e2). simpl. rewrite T1, !restores_app, R1, R2.
  repeat split; auto.
Qed.

Lemma relay_loop_sigterm (fd : Z) (its : list iteration) (s : state) :
  exists evs,
    snd (relay_loop fd its s) = log s evs
    /\ (sigterm_sent evs = true ->
        fst (relay_loop fd its s) = Raise (SystemExit 0)
        \/ fst (relay_loop fd its s) = Done tt).
Proof.
  revert s; induction its as [|it rest IH]; intro s; simpl.
  - exists []. rewrite log_nil. split; [reflexivity | discriminate].
  - unfold bind. destruct (relay_pass_sigterm fd it s) as (e1 & E1 & K1).
    destruct (relay_pass fd it s) as [r s1]; simpl in *; subst s1.
    destruct r as [[]|e| |];
      try (exists e1; split; [reflexivity|]; intro K;
           destruct (K1 K) as [H|H]; try discriminate H;
           inversion H; subst; simpl; now auto).
    destruct (IH (log s e1)) as (e2 & E2 & K2).
    exists (e1 ++ e2). rewrite E2, log_log. split; [reflexivity|].
    rewrite sigterm_sent_app. destruct (sigterm_sent e1) eqn:K.
    + destruct (K1 eq_refl); discriminate.
    + exact K2.
Qed.

Lemma startup_sigterm (fd : Z) (sc : script) (s : state) :
  exists evs,
    trace (snd (startup fd sc s)) = trace s ++ evs
    /\ (sigterm_sent evs = true -> fst (startup fd sc s) = Raise (SystemExit 0)).
Proof.
  unfold startup, tcgetattr, tty_setraw, set_blocking, set_old_tty, set_tty,
    bind, get.
  crunch; simpl.
  all: eexists; (split; [unfold log; simpl; rewrite <- ?app_assoc; reflexivity|]).
  all: intro H; try reflexivity; exfalso.
  all: repeat rewrite sigterm_sent_app in H;
       repeat (rewrite sigterm_sent_handled in H by assumption);
       simpl in H; discriminate.
Qed.

Lemma body_sigterm (fd : Z) (sc : script) (s : state) :
  exists evs,
    trace (snd ((startup fd sc ;; relay_loop fd (s_loop sc)) s))
    = trace s ++ evs
    /\ (sigterm_sent evs = true ->
        fst ((startup fd sc ;; relay_loop fd (s_loop sc)) s)
        = Raise (SystemExit 0)
        \/ fst ((startup fd sc ;; relay_loop fd (s_loop sc)) s) = Done tt).
Proof.
  unfold bind. destruct (startup_sigterm fd sc s) as (e1 & T1 & K1).
  destruct (startup fd sc s) as [r s1]; simpl in *.
  destruct r as [[]|e| |];
    try (exists e1; split; [assumption|]; intro K; left; exact (K1 K)).
  destruct (relay_loop_sigterm fd (s_loop sc) s1) as (e2 & E2 & K2).
  destruct (relay_loop fd (s_loop sc) s1) as [r2 s2]; simpl in *; subst s2.
  exists (e1 ++ e2); simpl. rewrite T1, app_assoc. split; [reflexivity|].
  rewrite sigterm_sent_app. destruct (sigterm_sent e1) eqn:K.
  - discriminate (K1 eq_refl).
  - exact K2.
Qed.

Lemma parent_sigterm (fd : Z) (sc : script) (s : state) :
  has_sigterm (sigs (s_restore sc)) = false ->
  exists evs,
    trace (snd (parent fd sc s)) = trace s ++ evs
    /\ (sigterm_sent evs = true ->
        exit_status (fst (parent fd sc s)) = Some 0).
Proof.
  intro Rs. destruct (body_sigterm fd sc s) as (e & T & K).
  assert (X : forall s1 : state,
             exists x, trace (snd (restore sc s1)) = trace s1 ++ x
                       /\ sigterm_sent x = false).
  { intro s1. rewrite restore_eq. unfold returns. rewrite Rs. simpl.
    destruct (old_tty s1); [destruct (out (s_restore sc))|]; simpl.
    - eexists; split; [reflexivity|].
      now rewrite sigterm_sent_app, sigterm_sent_handled.
    - eexists; split; [reflexivity|]. now rewrite sigterm_sent_handled.
    - exists []. now rewrite app_nil_r. }
  unfold parent, try_finally.
  destruct ((startup fd sc ;; relay_loop fd (s_loop sc)) s) as [[u|x| |] s1];
    simpl in *.
  1,2: destruct (X s1) as (x1 & T1 & K1);
       assert (RD : fst (restore sc s1) = Done tt) by now rewrite restore_eq.
  1,2: unfold bind; destruct (restore sc s1) as [r s3]; simpl in *; subst r;
       simpl; exists (e ++ x1); rewrite T1, T, app_assoc;
       (split; [reflexivity|]);
       rewrite sigterm_sent_app, K1, orb_false_r; intro H;
       destruct (K H) as [H1|H1]; inversion H1; reflexivity.
  all: exists e; split; [assumption|]; intro H; destruct (K H); discriminate.
Qed.

Lemma calm_inv (it : iteration) :
  calm it = true ->
  has_sigterm (sigs (it_select it)) = false
  /\ has_sigterm (sigs (it_in_read it)) = false
  /\ has_sigterm (sigs (it_in_write it)) = false
  /\ has_sigterm (sigs (it_out_read it)) = false
  /\ has_sigterm (sigs (it_out_write it)) = false
  /\ has_sigterm (sigs (it_out_flush it)) = false
  /\ has_sigterm (sigs (it_wait it)) = false.
Proof.
  unfold calm. rewrite negb_true_iff, !orb_false_iff. tauto.
Qed.

(** The pass in which [waitpid] reports the child ends the loop. *)
Lemma relay_pass_reaped (fd : Z) (it : iteration) (s : state) (p : Z) :
  child_pid s = Some p ->
  calm it = true -> returns (it_select it) = true -> reaped it = true ->
  fst (relay_pass fd it s) = Done Break.
Proof.
  intros C (S1 & S2 & S3 & S4 & S5 & S6 & S7)%calm_inv R W.
  unfold returns in R. rewrite S1 in R. unfold reaped in W.
  destruct (out (it_select it)) as [r|] eqn:Sel; [|discriminate].
  destruct (out (it_wait it)) as [[q st]|] eqn:Wt; [|discriminate].
  repeat autounfold with py. crunch; simpl in *; congruence.
Qed.

(** ** Restoring the terminal *)



(** ** SIGTERM *)

Lemma relay_pass_at_select (fd : Z) (it : iteration) (s : state) :
  has_sigterm (sigs (it_select it)) = true ->
  relay_pass fd it s
  = (Raise (SystemExit 0), log s (handled (child_pid s) (sigs (it_select it)))).
Proof.
  intro T. unfold relay_pass, select_select, bind. now rewrite syscall_eq, T.
Qed.

(** C1, as the script behaves: [sys.exit(0)] in the handler raises
    [SystemExit] at the interrupted call, and the [finally] clause of
    [main] runs on its way out.  When SIGTERM is handled at the
    [select] of a pass of the loop, SIGTERM is sent to the registered
    child, and then [tcsetattr] is called with the saved attributes, so
    that the terminal has them again when the process exits with
    [SystemExit(0)] pending. *)
Theorem sigterm_runs_finally (sc : script) (a : attrs) (p fd : Z)
        (pre post : list iteration) (it : iteration) :
  out (s_fork sc) = Ok (p, fd) ->
  s_loop sc = pre ++ it :: post ->
  fst (run (with_loop sc pre) a) = Running ->
  has_sigterm (sigs (it_select it)) = true ->
  returns (s_restore sc) = true ->
  fst (run sc a) = Raise (SystemExit 0)
  /\ (exists tr1 tr2,
        trace (snd (run sc a))
        = tr1 ++ EKill p SIGTERM :: tr2 ++ [ETcsetattr a])
  /\ restores (trace (snd (run sc a))) = [a]
  /\ tty (snd (run sc a)) = a.
Proof.
  intros F L R T Rs.
  destruct (run_after_prefix sc a p fd pre (it :: post) F L R)
    as (s2 & C & P & O & Rt & E).
  rewrite E. cbn [relay_loop]. unfold try_finally, bind.
  rewrite (relay_pass_at_select fd it s2 T), restore_eq; simpl.
  rewrite O, Rs, C; simpl.
  destruct (handled_sigterm_last p (sigs (it_select it)) P T) as (evs & H).
  rewrite H. split; [reflexivity|]. split; [|split; [|reflexivity]].
  - exists (trace s2 ++ evs), (handled (Some p) (sigs (s_restore sc))).
    now rewrite <- !app_assoc.
  - rewrite !restores_app, Rt, restores_handled; simpl.
    replace (restores evs) with (@nil attrs); [reflexivity|].
    pose proof (restores_handled (Some p) (sigs (it_select it))) as Z0.
    rewrite H, restores_app in Z0. now destruct (restores evs).
Qed.

Lemma sigterm_runs_finally_witness :
  fst (run (session [idle; sigterm_at_select; idle]) [7])
  = Raise (SystemExit 0)
  /\ restores (trace (snd (run (session [idle; sigterm_at_select; idle]) [7])))
     = [[7]]
  /\ tty (snd (run (session [idle; sigterm_at_select; idle]) [7])) = [7].
Proof.
  pose proof (sigterm_runs_finally
                (session [idle; sigterm_at_select; idle]) [7] 1234 5
                [idle] [idle] sigterm_at_select
                eq_refl eq_refl eq_refl eq_refl eq_refl) as (H1 & _ & H3 & H4).
  split; [exact H1 | split; [exact H3 | exact H4]].
Defined.

(** C1 as stated fails: with SIGTERM arriving during the second pass,
    the child gets SIGTERM and [main] is left with [SystemExit(0)], but
    the last thing the process does is the [tcsetattr] with the saved
    attributes: the restoration is not bypassed. *)
Lemma sigterm_skips_restore_counterexample :
  run (session [idle; sigterm_at_select]) [7]
  = (Raise (SystemExit 0),
     {| child_pid := Some 1234; old_tty := Some [7]; tty := [7];
        trace := [ESetraw; ESetBlocking (Master 5) false;
                  ESetBlocking Stdin false;
                  ESelect [Stdin; Master 5] 100; EWaitpid 1234 1;
                  EKill 1234 SIGTERM; ETcsetattr [7]] |})
  /\ ~ restores (trace (snd (run (session [idle; sigterm_at_select]) [7]))) = [].
Proof. split; [reflexivity | discriminate]. Qed.



(** ** Signal forwarding *)


(** ** Starting the shell *)

(** C8: on the child side of [pty.fork] the process image is replaced
    by the shell named by SHELL when the variable is set, by /bin/bash
    otherwise, with the argument vector [shell, '--login']. *)
Theorem child_execs_login_shell (sc : script) (a : attrs) (fd : Z) :
  out (s_fork sc) = Ok (0, fd) ->
  has_sigterm (sigs (s_fork sc)) = false ->
  out (s_exec sc) = Ok tt ->
  has_sigterm (sigs (s_exec sc)) = false ->
  let shell := match environ sc !! "SHELL"%string with
               | Some v => v
               | None => "/bin/bash"%string
               end in
  run sc a =
    (Execed,
     {| child_pid := Some 0; old_tty := None; tty := a;
        trace := [EExecvp shell [shell; "--login"%string]] |}).
Proof.
  intros Hf Sf He Se shell.
  unfold run, main, bind. rewrite syscall_eq, Sf, Hf; simpl.
  unfold os_execvp, bind. rewrite syscall_eq, Se, He; simpl.
  rewrite !handled_unregistered by reflexivity; simpl.
  unfold shell, default. destruct (environ sc !! "SHELL"%string); reflexivity.
Qed.

Lemma child_execs_login_shell_witness :
  run (child_side {[ "SHELL"%string := "/bin/zsh"%string ]}) [7]
  = (Execed,
     {| child_pid := Some 0; old_tty := None; tty := [7];
        trace := [EExecvp "/bin/zsh" ["/bin/zsh"; "--login"]%string] |})
  /\ run (child_side ∅) [7]
  = (Execed,
     {| child_pid := Some 0; old_tty := None; tty := [7];
        trace := [EExecvp "/bin/bash" ["/bin/bash"; "--login"]%string] |}).
Proof.
  split.
  - pose proof (child_execs_login_shell
                  (child_side {[ "SHELL"%string := "/bin/zsh"%string ]}) [7] 5
                  eq_refl eq_refl eq_refl eq_refl) as H.
    cbv zeta in H; simpl environ in H.
    rewrite lookup_singleton_eq in H. exact H.
  - pose proof (child_execs_login_shell (child_side ∅) [7] 5
                  eq_refl eq_refl eq_refl eq_refl) as H.
    cbv zeta in H; simpl environ in H.
    rewrite lookup_empty in H. exact H.
Defined.

(** ** Pass-through of bytes *)

Lemma relay_loop_since (fd : Z) (it : iteration) (rest : list iteration)
      (s : state) :
  since s (snd (relay_loop fd (it :: rest) s))
  = since s (snd (relay_pass fd it s))
    ++ match fst (relay_pass fd it s) with
       | Done Next =>
           since (snd (relay_pass fd it s))
                 (snd (relay_loop fd rest (snd (relay_pass fd it s))))
       | _ => []
       end.
Proof.
  simpl. unfold bind. destruct (relay_pass_log fd it s) as (e1 & E1 & _).
  destruct (relay_pass fd it s) as [r s1]; simpl in *; subst s1.
  destruct r as [[]|e| |]; simpl; rewrite ?app_nil_r; try reflexivity.
  destruct (relay_loop_log fd rest (log s e1)) as (e2 & E2 & _).
  rewrite E2, !since_log, log_log, since_log. reflexivity.
Qed.




(** ** Leaving the loop *)

Lemma relay_loop_break (fd : Z) (it : iteration) (rest : list iteration)
      (s : state) :
  fst (relay_pass fd it s) = Done Break ->
  relay_loop fd (it :: rest) s = (Done tt, snd (relay_pass fd it s)).
Proof.
  simpl. unfold bind. destruct (relay_pass fd it s) as [r s1]; simpl.
  now intros ->.
Qed.

Lemma relay_pass_waits (fd : Z) (it : iteration) (s : state) (p : Z) :
  child_pid s = Some p ->
  calm it = true -> returns (it_select it) = true ->
  master_fails it = false -> is_err (out (it_wait it)) = false ->
  waits (since s (snd (relay_pass fd it s))) = [(p, WNOHANG)].
Proof.
  intros C (S1 & S2 & S3 & S4 & S5 & S6 & S7)%calm_inv R M W.
  unfold returns in R. rewrite S1 in R. unfold master_fails in M.
  destruct (out (it_select it)) as [r|] eqn:Sel; [|discriminate].
  destruct (out (it_wait it)) as [[q st]|] eqn:Wt; [|discriminate].
  repeat autounfold with py. crunch.
  all: cbn [snd]; rewrite since_log; tidy; try reflexivity.
  all: simpl in *; congruence.
Qed.

Lemma relay_pass_master_fails (fd : Z) (it : iteration) (s : state)
      (r : list endpoint) :
  calm it = true -> out (it_select it) = Ok r -> ready (Master fd) r = true ->
  master_fails it = true ->
  fst (relay_pass fd it s) = Done Break
  /\ waits (since s (snd (relay_pass fd it s))) = [].
Proof.
  intros (S1 & S2 & S3 & S4 & S5 & S6 & S7)%calm_inv Sel R M.
  unfold master_fails in M.
  repeat autounfold with py. crunch.
  all: cbn [fst snd]; rewrite since_log; tidy; try (split; reflexivity).
  all: simpl in *; congruence.
Qed.

Lemma relay_pass_break (fd : Z) (it : iteration) (s : state) (p : Z) :
  child_pid s = Some p ->
  fst (relay_pass fd it s) = Done Break ->
  master_fails it = true \/ reaped it = true \/ wait_raises it = true.
Proof.
  intros C. unfold master_fails, reaped, wait_raises.
  repeat autounfold with py. crunch.
  all: cbn [fst]; intro H; try discriminate H; simpl; auto.
  all: try congruence.
  all: repeat match goal with x : (Z * Z)%type |- _ => destruct x end;
       simpl in *; auto.
Qed.



(** C5, as the script behaves: an [OSError] of the PTY-master direction
    (at the read, or at the write or the flush of what was read) ends
    the loop at once, without a [waitpid], whatever its errno; and the
    loop is left through [break] only in a pass in which that
    direction raises, or [waitpid] reports the child, or the [waitpid]
    step itself raises. *)
Theorem loop_exit_conditions (fd : Z) (its : list iteration) (it : iteration)
        (rest : list iteration) (s : state) (p : Z) (r : list endpoint) :
  child_pid s = Some p ->
  (calm it = true -> out (it_select it) = Ok r ->
   ready (Master fd) r = true -> master_fails it = true ->
   relay_loop fd (it :: rest) s = (Done tt, snd (relay_pass fd it s))
   /\ waits (since s (snd (relay_pass fd it s))) = [])
  /\ (fst (relay_loop fd its s) = Done tt ->
      Exists (fun it => master_fails it = true \/ reaped it = true
                        \/ wait_raises it = true) its).
Proof.
  intro C. split.
  - intros K Sel R M.
    destruct (relay_pass_master_fails fd it s r K Sel R M) as [B W].
    split; [now apply relay_loop_break | exact W].
  - clear it rest r. revert s C.
    induction its as [|it rest IH]; intros s C; simpl; [discriminate|].
    unfold bind. pose proof (relay_pass_break fd it s p C) as B.
    destruct (relay_pass_log fd it s) as (e1 & E1 & _).
    destruct (relay_pass fd it s) as [x s1]; simpl in *; subst s1.
    destruct x as [[]|e| |]; simpl; try discriminate.
    + intro H. apply Exists_cons_tl. now apply (IH (log s e1)).
    + intros _. apply Exists_cons_hd. now apply B.
Qed.

Lemma loop_exit_conditions_witness :
  relay_loop 5 [master_error EIO; idle] (in_loop [7])
  = (Done tt, snd (relay_pass 5 (master_error EIO) (in_loop [7])))
  /\ Exists (fun it => master_fails it = true \/ reaped it = true
                       \/ wait_raises it = true)
            [idle; wait_error ECHILD].
Proof.
  split.
  - exact (proj1 (proj1 (loop_exit_conditions 5 [] (master_error EIO) [idle]
                           (in_loop [7]) 1234 [Master 5] eq_refl)
                    eq_refl eq_refl eq_refl eq_refl)).
  - exact (proj2 (loop_exit_conditions 5 [idle; wait_error ECHILD] idle []
                    (in_loop [7]) 1234 [] eq_refl) eq_refl).
Defined.

(** C5 as stated fails.  A transient error of the master read
    ([BlockingIOError], errno EAGAIN) ends the loop although the child
    was never reported as gone and no read failed for a lasting reason;
    and so does a [waitpid] that raises. *)
Lemma loop_exit_counterexample :
  fst (relay_loop 5 [master_error EAGAIN; idle] (in_loop [7])) = Done tt
  /\ transient EAGAIN = true
  /\ master_read_fails_hard (master_error EAGAIN) = false
  /\ reaped (master_error EAGAIN) = false
  /\ waits (trace (snd (relay_loop 5 [master_error EAGAIN; idle]
                          (in_loop [7])))) = []
  /\ fst (relay_loop 5 [wait_error ECHILD; idle] (in_loop [7])) = Done tt
  /\ master_read_fails_hard (wait_error ECHILD) = false
  /\ reaped (wait_error ECHILD) = false.
Proof. repeat split. Qed.

(** ** The controlling input *)

Lemma ready_unready_self (x : endpoint) (r : list endpoint) :
  ready x (List.filter (fun y => negb (endpoint_eqb x y)) r) = false.
Proof.
  unfold ready. induction r as [|y r IH]; simpl; [reflexivity|].
  destruct (endpoint_eqb x y) eqn:E; simpl; [exact IH|]. now rewrite E.
Qed.

Lemma ready_unready_master (fd : Z) (r : list endpoint) :
  ready (Master fd) (List.filter (fun y => negb (endpoint_eqb Stdin y)) r)
  = ready (Master fd) r.
Proof.
  unfold ready. induction r as [|y r IH]; simpl; [reflexivity|].
  destruct y; simpl; [exact IH | exact IH | apply (f_equal (orb _)); exact IH].
Qed.

(** A pass whose input side raises nothing but [OSError], or reads
    nothing, ends the way it would have with the input not ready. *)
Lemma relay_pass_unready (fd : Z) (it : iteration) (s : state) :
  has_sigterm (sigs (it_in_read it)) = false ->
  has_sigterm (sigs (it_in_write it)) = false
  \/ out (it_in_read it) = Ok [] \/ is_err (out (it_in_read it)) = true ->
  fst (relay_pass fd it s) = fst (relay_pass fd (unready Stdin it) s).
Proof.
  intros S1 H. repeat autounfold with py.
  cbn [unready it_select it_in_read it_in_write it_out_read it_out_write
       it_out_flush it_wait].
  rewrite !syscall_eq. cbn [sigs out].
  destruct (has_sigterm (sigs (it_select it))); [reflexivity|].
  destruct (out (it_select it)) as [r|]; [|reflexivity].
  cbn beta iota. rewrite ?ready_unready_self, ?ready_unready_master.
  crunch; try reflexivity.
  all: destruct H as [H|[H|H]]; simpl in *; try congruence.
  all: injection H as ->; rewrite firstn_nil in *; discriminate.
Qed.

(** ** More on the controlling input *)

Lemma relay_pass_child (fd : Z) (it : iteration) (s : state) :
  child_pid (snd (relay_pass fd it s)) = child_pid s.
Proof.
  destruct (relay_pass_log fd it s) as (evs & E & _). now rewrite E.
Qed.

Lemma input_calm_inv (it : iteration) :
  input_calm it = true ->
  has_sigterm (sigs (it_in_read it)) = false
  /\ has_sigterm (sigs (it_in_write it)) = false.
Proof.
  unfold input_calm. rewrite negb_true_iff, orb_false_iff. tauto.
Qed.

Lemma relay_in_done (fd : Z) (it : iteration) (s : state) :
  input_calm it = true -> fst (relay_in fd it s) = Done tt.
Proof.
  intros [S1 S2]%input_calm_inv.
  repeat autounfold with py. crunch; reflexivity.
Qed.

Lemma relay_loop_unready (fd : Z) (its : list iteration) (s1 s2 : state) :
  child_pid s1 = child_pid s2 ->
  Forall (fun it => input_calm it = true) its ->
  fst (relay_loop fd its s1)
  = fst (relay_loop fd (map (unready Stdin) its) s2).
Proof.
  revert s1 s2; induction its as [|it rest IH]; intros s1 s2 C F; simpl;
    [reflexivity|].
  inversion F as [|? ? [S1 S2]%input_calm_inv F']; subst.
  pose proof (relay_pass_unready fd it s1 S1 (or_introl S2)) as U.
  rewrite (relay_pass_fst fd (unready Stdin it) s1 s2 C) in U.
  pose proof (relay_pass_child fd it s1) as C1.
  pose proof (relay_pass_child fd (unready Stdin it) s2) as C2.
  unfold bind.
  destruct (relay_pass fd it s1) as [r1 t1],
           (relay_pass fd (unready Stdin it) s2) as [r2 t2].
  simpl in *; subst r2.
  destruct r1 as [[]| | |]; try reflexivity.
  apply IH; [congruence | assumption].
Qed.

(** X1: as long as no SIGTERM is handled on the input side, nothing
    that happens there ends the session: the input block of a pass
    always completes (an [OSError] of the read or of the write is
    swallowed), and the loop ends, or goes on, exactly as it would have
    if [select] had never reported the controlling input as ready. *)
Theorem input_side_never_ends_loop (fd : Z) (it : iteration)
        (its : list iteration) (s : state) :
  (input_calm it = true -> fst (relay_in fd it s) = Done tt)
  /\ (Forall (fun it => input_calm it = true) its ->
      fst (relay_loop fd its s)
      = fst (relay_loop fd (map (unready Stdin) its) s)).
Proof.
  split.
  - apply relay_in_done.
  - now apply relay_loop_unready.
Qed.

Lemma input_side_never_ends_loop_witness :
  fst (relay_in 5 (input_error EAGAIN) (in_loop [7])) = Done tt
  /\ fst (relay_loop 5 [input_error EAGAIN; typed ls (failing EAGAIN);
                        child_gone] (in_loop [7]))
     = fst (relay_loop 5 (map (unready Stdin)
                              [input_error EAGAIN; typed ls (failing EAGAIN);
                               child_gone]) (in_loop [7])).
Proof.
  split.
  - exact (proj1 (input_side_never_ends_loop 5 (input_error EAGAIN) []
                    (in_loop [7])) eq_refl).
  - apply (proj2 (input_side_never_ends_loop 5 idle
                    [input_error EAGAIN; typed ls (failing EAGAIN);
                     child_gone] (in_loop [7]))).
    repeat constructor.
Defined.

Lemma relay_pass_eof (fd : Z) (it : iteration) (s : state) (p : Z) :
  child_pid s = Some p -> eof_only fd it = true ->
  fst (relay_pass fd it s) = Done Next
  /\ writes (Master fd) (since s (snd (relay_pass fd it s))) = []
  /\ waits (since s (snd (relay_pass fd it s))) = [(p, WNOHANG)].
Proof.
  intros C [K E]%andb_true_iff.
  apply calm_inv in K as (S1 & S2 & S3 & S4 & S5 & S6 & S7).
  destruct (out (it_select it)) as [r|] eqn:Sel; [|discriminate].
  destruct (out (it_in_read it)) as [[|]|] eqn:Rd; try discriminate.
  destruct (out (it_wait it)) as [[q st]|] eqn:Wt; [|discriminate].
  apply andb_true_iff in E as [M Q]. apply negb_true_iff in M.
  repeat autounfold with py. crunch.
  all: cbn [fst snd]; rewrite since_log; tidy; rewrite ?firstn_nil in *;
       simpl in *; try congruence; auto.
  all: rewrite Q in *; discriminate.
Qed.

(** X2: end of file on the controlling input is no exit condition.
    Through any number of passes in which the input read returns
    nothing, the master is not ready and the child is still there, the
    loop stays in the loop, writes nothing to the PTY master, and
    checks on the child once in each pass. *)
Theorem input_eof_keeps_running (fd : Z) (its : list iteration) (s : state)
        (p : Z) :
  child_pid s = Some p ->
  Forall (fun it => eof_only fd it = true) its ->
  fst (relay_loop fd its s) = Running
  /\ writes (Master fd) (since s (snd (relay_loop fd its s))) = []
  /\ waits (since s (snd (relay_loop fd its s)))
     = repeat (p, WNOHANG) (length its).
Proof.
  revert s; induction its as [|it rest IH]; intros s C F.
  - simpl. unfold since. now rewrite skipn_all.
  - inversion F as [|? ? E F']; subst.
    destruct (relay_pass_eof fd it s p C E) as (R & W & Wt).
    rewrite relay_loop_since, writes_app, waits_app, W, Wt, R.
    assert (C1 : child_pid (snd (relay_pass fd it s)) = Some p)
      by now rewrite relay_pass_child.
    destruct (IH (snd (relay_pass fd it s)) C1 F') as (R' & W' & Wt').
    rewrite W', Wt'. simpl. unfold bind.
    destruct (relay_pass fd it s) as [r s1]; simpl in *; subst r.
    now rewrite R'.
Qed.

Lemma input_eof_keeps_running_witness :
  fst (relay_loop 5 [input_eof; input_eof; input_eof] (in_loop [7])) = Running
  /\ writes (Master 5)
       (since (in_loop [7])
          (snd (relay_loop 5 [input_eof; input_eof; input_eof] (in_loop [7]))))
     = [].
Proof.
  pose proof (input_eof_keeps_running 5 [input_eof; input_eof; input_eof]
                (in_loop [7]) 1234 eq_refl) as H.
  destruct H as (R & W & _); [repeat constructor|].
  split; [exact R | exact W].
Defined.

(** ** What the relay never does *)

Lemma relay_pass_sublist (fd : Z) (it : iteration) (s : state) :
  sublist (writes (Master fd) (since s (snd (relay_pass fd it s))))
          (reads Stdin (since s (snd (relay_pass fd it s))))
  /\ sublist (writes Stdout (since s (snd (relay_pass fd it s))))
             (reads (Master fd) (since s (snd (relay_pass fd it s)))).
Proof.
  repeat autounfold with py. crunch.
  all: cbn [snd]; rewrite since_log; tidy.
  all: split; first [ reflexivity | apply sublist_take | apply sublist_nil_l ].
Qed.

(** X3: the relay never makes up, repeats or reorders a byte.  Whatever
    the reads and writes do (errors, short writes, signals), the bytes
    that reach the PTY master are a subsequence of the bytes read from
    the controlling input, and the bytes that reach the controlling
    output are a subsequence of the bytes read from the PTY master. *)
Theorem relay_never_invents (fd : Z) (its : list iteration) (s : state) :
  sublist (writes (Master fd) (since s (snd (relay_loop fd its s))))
          (reads Stdin (since s (snd (relay_loop fd its s))))
  /\ sublist (writes Stdout (since s (snd (relay_loop fd its s))))
             (reads (Master fd) (since s (snd (relay_loop fd its s)))).
Proof.
  revert s; induction its as [|it rest IH]; intro s.
  - simpl. unfold since. rewrite skipn_all. simpl. split; constructor.
  - rewrite relay_loop_since, !writes_app, !reads_app.
    destruct (relay_pass_sublist fd it s) as [I O].
    destruct (IH (snd (relay_pass fd it s))) as [I' O'].
    destruct (fst (relay_pass fd it s)) as [[]| | |];
      rewrite ?app_nil_r; split; auto using sublist_app.
Qed.

Lemma kills_handled (p : option Z) (l : list signal) :
  Forall (fun k => fst k <> 0 /\ p = Some (fst k)) (kills (handled p l)).
Proof.
  induction l as [|sig rest IH]; simpl; [constructor|].
  destruct p as [n|]; simpl.
  - destruct (n =? 0) eqn:N; simpl.
    + destruct sig; simpl; [exact IH | constructor].
    + apply Z.eqb_neq in N.
      constructor; [now split|]. destruct sig; simpl; [exact IH | constructor].
  - destruct sig; simpl; [exact IH | constructor].
Qed.

(** Reduces a statement about the kills of a pass to the kills of the
    signals handled in it. *)
Ltac only_handled :=
  try match goal with H : child_pid _ = _ |- _ => rewrite ?H end;
  rewrite ?kills_app; cbn [kills app];
  repeat first [ apply Forall_nil_2 | apply kills_handled
               | apply Forall_app_2 ].

Lemma relay_pass_kills (fd : Z) (it : iteration) (s : state) :
  Forall (fun k => fst k <> 0 /\ child_pid s = Some (fst k))
         (kills (since s (snd (relay_pass fd it s)))).
Proof.
  repeat autounfold with py. crunch.
  all: cbn [snd]; rewrite since_log; only_handled.
Qed.

Lemma relay_loop_kills (fd : Z) (its : list iteration) (s : state) :
  Forall (fun k => fst k <> 0 /\ child_pid s = Some (fst k))
         (kills (since s (snd (relay_loop fd its s)))).
Proof.
  revert s; induction its as [|it rest IH]; intro s.
  - simpl. unfold since. rewrite skipn_all. constructor.
  - rewrite relay_loop_since, kills_app. apply Forall_app_2.
    + apply relay_pass_kills.
    + pose proof (IH (snd (relay_pass fd it s))) as K.
      rewrite relay_pass_child in K.
      destruct (fst (relay_pass fd it s)) as [[]| | |];
        first [exact K | constructor].
Qed.

Lemma startup_kills (fd : Z) (sc : script) (s : state) :
  exists evs,
    trace (snd (startup fd sc s)) = trace s ++ evs
    /\ child_pid (snd (startup fd sc s)) = child_pid s
    /\ Forall (fun k => fst k <> 0 /\ child_pid s = Some (fst k)) (kills evs).
Proof.
  unfold startup, tcgetattr, tty_setraw, set_blocking, set_old_tty, set_tty,
    bind, get.
  crunch; simpl.
  all: eexists; (split; [unfold log; simpl; rewrite <- ?app_assoc; reflexivity|]).
  all: split; [reflexivity|]; only_handled.
Qed.

Lemma restore_kills (sc : script) (s : state) :
  exists evs,
    trace (snd (restore sc s)) = trace s ++ evs
    /\ child_pid (snd (restore sc s)) = child_pid s
    /\ Forall (fun k => fst k <> 0 /\ child_pid s = Some (fst k)) (kills evs).
Proof.
  rewrite restore_eq; simpl.
  destruct (old_tty s); [destruct (returns (s_restore sc))|]; simpl.
  - eexists; split; [reflexivity|]. split; [reflexivity|]. only_handled.
  - eexists; split; [reflexivity|]. split; [reflexivity|]. only_handled.
  - exists []. rewrite app_nil_r. repeat split. constructor.
Qed.

Lemma parent_kills (fd : Z) (sc : script) (s : state) :
  exists evs,
    trace (snd (parent fd sc s)) = trace s ++ evs
    /\ child_pid (snd (parent fd sc s)) = child_pid s
    /\ Forall (fun k => fst k <> 0 /\ child_pid s = Some (fst k)) (kills evs).
Proof.
  assert (B : exists evs,
             trace (snd ((startup fd sc ;; relay_loop fd (s_loop sc)) s))
             = trace s ++ evs
             /\ child_pid (snd ((startup fd sc ;; relay_loop fd (s_loop sc)) s))
                = child_pid s
             /\ Forall (fun k => fst k <> 0 /\ child_pid s = Some (fst k))
                       (kills evs)).
  { unfold bind. destruct (startup_kills fd sc s) as (e1 & T1 & C1 & K1).
    destruct (startup fd sc s) as [r s1]; simpl in *.
    destruct r; try (exists e1; now repeat split).
    pose proof (relay_loop_kills fd (s_loop sc) s1) as K2.
    destruct (relay_loop_log fd (s_loop sc) s1) as (e2 & E2 & _).
    rewrite E2, since_log, C1 in K2.
    destruct (relay_loop fd (s_loop sc) s1) as [r2 s2]; simpl in *; subst s2.
    exists (e1 ++ e2). simpl. rewrite T1, app_assoc, kills_app.
    split; [reflexivity|]. split; [assumption|]. now apply Forall_app_2. }
  destruct B as (e & T & C & K).
  unfold parent, try_finally.
  destruct ((startup fd sc ;; relay_loop fd (s_loop sc)) s) as [[u|x| |] s1];
    simpl in *; try (exists e; now repeat split).
  all: unfold bind; destruct (restore_kills sc s1) as (e3 & T3 & C3 & K3);
       destruct (restore sc s1) as [[[]|y| |] s3]; simpl in *;
       exists (e ++ e3); rewrite T3, T, app_assoc, kills_app, C3, C;
       (split; [reflexivity|]); (split; [reflexivity|]);
       (apply Forall_app_2; [assumption|]); now rewrite <- C.
Qed.

(** X4: the only process the script ever signals is the child that
    [pty.fork] returned.  In every run, each [os.kill] is aimed at the
    pid held in the global, which is not 0: nothing is sent before the
    fork, nothing on the child side of the fork (where the global is
    0), and [os.kill(0, ...)], which would signal the whole process
    group, never happens. *)
Theorem kills_only_registered_child (sc : script) (a : attrs) :
  Forall (fun k => fst k <> 0 /\ child_pid (snd (run sc a)) = Some (fst k))
         (kills (trace (snd (run sc a)))).
Proof.
  unfold run, main, os_execvp, bind. rewrite syscall_eq.
  destruct (has_sigterm (sigs (s_fork sc))); simpl;
    [rewrite handled_unregistered by reflexivity; constructor|].
  destruct (out (s_fork sc)) as [[q m]|]; simpl;
    [|rewrite handled_unregistered by reflexivity; constructor].
  rewrite handled_unregistered by reflexivity.
  destruct (q =? 0) eqn:Q.
  - apply Z.eqb_eq in Q; subst q. rewrite syscall_eq.
    destruct (has_sigterm (sigs (s_exec sc))); simpl;
      [rewrite handled_unregistered by reflexivity; constructor|].
    destruct (out (s_exec sc)); simpl;
      rewrite handled_unregistered by reflexivity; constructor.
  - match goal with |- context [parent m sc ?s0] =>
      destruct (parent_kills m sc s0) as (evs & T & C & K) end.
    simpl in *. rewrite T, C. exact K.
Qed.

(** ** Interrupts *)

Lemma has_sigterm_deaf (l : list signal) :
  has_sigterm (List.filter is_sigterm l) = has_sigterm l.
Proof.
  unfold has_sigterm. induction l as [|sig rest IH]; simpl; [reflexivity|].
  destruct sig; simpl; now rewrite ?IH.
Qed.

Lemma no_kills_app (a b : list event) :
  no_kills (a ++ b) = no_kills a ++ no_kills b.
Proof.
  induction a as [|e a IH]; simpl; [reflexivity|].
  destruct e; simpl; rewrite ?IH; reflexivity.
Qed.

Lemma no_kills_handled (p : option Z) (l : list signal) :
  no_kills (handled p l) = [].
Proof.
  induction l as [|sig rest IH]; simpl; [reflexivity|].
  rewrite no_kills_app. destruct (truthy p), sig; simpl; auto.
Qed.

(** Splits a pass and its SIGINT-free twin along the same outcomes. *)
Ltac crunch_deaf :=
  repeat first
    [ rewrite syscall_eq
    | rewrite log_log
    | rewrite child_pid_log
    | progress cbn [deaf sigs out]
    | rewrite has_sigterm_deaf
    | progress cbn beta iota
    | match goal with
      | H : ?x = _ |- context [if ?x then _ else _] => rewrite H
      | H : ?x = _ |- context [match ?x with _ => _ end] => rewrite H
      | |- context [if has_sigterm ?l then _ else _] =>
          destruct (has_sigterm l) eqn:?
      | |- context [match out ?c with _ => _ end] => destruct (out c) eqn:?
      | |- context [match child_pid ?s with _ => _ end] =>
          destruct (child_pid s) eqn:?
      | |- context [if ?b then _ else _] => destruct b eqn:?
      end ].

Lemma relay_pass_deaf (fd : Z) (it : iteration) (s1 s2 : state) :
  child_pid s1 = child_pid s2 ->
  fst (relay_pass fd it s1) = fst (relay_pass fd (without_sigint it) s2)
  /\ no_kills (since s1 (snd (relay_pass fd it s1)))
     = no_kills (since s2 (snd (relay_pass fd (without_sigint it) s2))).
Proof.
  intro E. repeat autounfold with py.
  cbn [without_sigint it_select it_in_read it_in_write it_out_read
       it_out_write it_out_flush it_wait].
  crunch_deaf.
  all: cbn [fst snd]; rewrite !since_log, ?no_kills_app, ?no_kills_handled.
  all: try (split; reflexivity).
  all: congruence.
Qed.

(** X5: interrupts never change what the relay does.  A loop and the
    same loop with every SIGINT left out end the same way, and their
    traces differ only in the [os.kill] calls: the same reads, writes,
    flushes and [waitpid] calls in the same order with the same data. *)
Theorem interrupts_never_change_relay (fd : Z) (its : list iteration)
        (s : state) :
  fst (relay_loop fd its s) = fst (relay_loop fd (map without_sigint its) s)
  /\ no_kills (since s (snd (relay_loop fd its s)))
     = no_kills (since s (snd (relay_loop fd (map without_sigint its) s))).
Proof.
  cut (forall s1 s2, child_pid s1 = child_pid s2 ->
         fst (relay_loop fd its s1)
         = fst (relay_loop fd (map without_sigint its) s2)
         /\ no_kills (since s1 (snd (relay_loop fd its s1)))
            = no_kills (since s2 (snd (relay_loop fd (map without_sigint its)
                                         s2)))); [now auto|].
  induction its as [|it rest IH]; intros s1 s2 E.
  - simpl. unfold since. now rewrite !skipn_all.
  - cbn [map]. rewrite !relay_loop_since, !no_kills_app.
    destruct (relay_pass_deaf fd it s1 s2 E) as [F N]. rewrite N.
    assert (E' : child_pid (snd (relay_pass fd it s1))
                 = child_pid (snd (relay_pass fd (without_sigint it) s2)))
      by now rewrite !relay_pass_child.
    destruct (IH _ _ E') as [F' N'].
    simpl. unfold bind.
    destruct (relay_pass fd it s1) as [r1 t1],
             (relay_pass fd (without_sigint it) s2) as [r2 t2].
    simpl in *; subst r2.
    destruct r1 as [[]| | |]; simpl; split; try reflexivity; try assumption.
    now rewrite N'.
Qed.

(** ** Failures at startup and in [select] *)

(** X6: when the controlling input is not a terminal, so that
    [tcgetattr] raises [termios.error], [main] ends with that exception
    and exit status 1.  The [finally] clause finds no saved attributes
    (its [UnboundLocalError] is swallowed): the terminal is left as it
    was, and apart from passing on signals the process does nothing
    more; in particular the child that was forked is never waited for. *)
Theorem no_tty_aborts (sc : script) (a : attrs) (p fd e : Z) :
  out (s_fork sc) = Ok (p, fd) -> p <> 0 ->
  has_sigterm (sigs (s_fork sc)) = false ->
  has_sigterm (sigs (s_getattr sc)) = false ->
  out (s_getattr sc) = Err e ->
  run sc a
  = (Raise (TermiosError e),
     {| child_pid := Some p; old_tty := None; tty := a;
        trace := handled (Some p) (sigs (s_getattr sc)) |})
  /\ exit_status (fst (run sc a)) = Some 1
  /\ no_kills (trace (snd (run sc a))) = [].
Proof.
  intros F P S G E.
  assert (Eq : run sc a
               = (Raise (TermiosError e),
                  {| child_pid := Some p; old_tty := None; tty := a;
                     trace := handled (Some p) (sigs (s_getattr sc)) |})).
  { rewrite (run_parent sc a p fd F P S).
    unfold parent, try_finally, startup, tcgetattr, bind.
    rewrite syscall_eq, G, E; cbn beta iota. now rewrite restore_eq. }
  rewrite Eq. simpl. split; [reflexivity|]. split; [reflexivity|].
  apply no_kills_handled.
Qed.

Lemma no_tty_aborts_witness :
  run {| environ := ∅; s_fork := quiet (1234, 5); s_exec := quiet tt;
         s_getattr := failing 25; s_setraw := quiet [0];
         s_block_master := quiet tt; s_block_stdin := quiet tt;
         s_loop := [idle]; s_restore := quiet tt |} [7]
  = (Raise (TermiosError 25),
     {| child_pid := Some 1234; old_tty := None; tty := [7]; trace := [] |}).
Proof.
  exact (proj1 (no_tty_aborts
                  {| environ := ∅; s_fork := quiet (1234, 5);
                     s_exec := quiet tt; s_getattr := failing 25;
                     s_setraw := quiet [0]; s_block_master := quiet tt;
                     s_block_stdin := quiet tt; s_loop := [idle];
                     s_restore := quiet tt |} [7] 1234 5 25
                  eq_refl ltac:(lia) eq_refl eq_refl eq_refl)).
Defined.

(** X7: when [pty.fork] fails, or when [os.execvp] fails on the child
    side, the [OSError] leaves [main] at once, outside the [try]: the
    exit status is 1 and neither terminal call nor relay pass is made
    by that process. *)
Theorem shell_start_failures (sc : script) (a : attrs) (fd e : Z) :
  (has_sigterm (sigs (s_fork sc)) = false -> out (s_fork sc) = Err e ->
   run sc a = (Raise (OSError e), initial a))
  /\ (has_sigterm (sigs (s_fork sc)) = false -> out (s_fork sc) = Ok (0, fd) ->
      has_sigterm (sigs (s_exec sc)) = false -> out (s_exec sc) = Err e ->
      run sc a
      = (Raise (OSError e),
         {| child_pid := Some 0; old_tty := None; tty := a; trace := [] |}))
  /\ exit_status (Raise (OSError e)) = Some 1.
Proof.
  split; [|split; [|reflexivity]].
  - intros S F. unfold run, main, bind. rewrite syscall_eq, S, F; simpl.
    now rewrite handled_unregistered.
  - intros S F S' X. unfold run, main, os_execvp, bind.
    rewrite syscall_eq, S, F; simpl. rewrite syscall_eq, S', X; simpl.
    now rewrite !handled_unregistered.
Qed.

Lemma shell_start_failures_witness :
  run {| environ := ∅; s_fork := failing 12; s_exec := quiet tt;
         s_getattr := quiet tt; s_setraw := quiet [0];
         s_block_master := quiet tt; s_block_stdin := quiet tt;
         s_loop := [idle]; s_restore := quiet tt |} [7]
  = (Raise (OSError 12), initial [7])
  /\ run {| environ := ∅; s_fork := quiet (0, 5); s_exec := failing 2;
            s_getattr := quiet tt; s_setraw := quiet [0];
            s_block_master := quiet tt; s_block_stdin := quiet tt;
            s_loop := [idle]; s_restore := quiet tt |} [7]
     = (Raise (OSError 2),
        {| child_pid := Some 0; old_tty := None; tty := [7]; trace := [] |}).
Proof.
  split.
  - exact (proj1 (shell_start_failures
                    {| environ := ∅; s_fork := failing 12; s_exec := quiet tt;
                       s_getattr := quiet tt; s_setraw := quiet [0];
                       s_block_master := quiet tt; s_block_stdin := quiet tt;
                       s_loop := [idle]; s_restore := quiet tt |} [7] 5 12)
             eq_refl eq_refl).
  - exact (proj1 (proj2 (shell_start_failures
                    {| environ := ∅; s_fork := quiet (0, 5);
                       s_exec := failing 2; s_getattr := quiet tt;
                       s_setraw := quiet [0]; s_block_master := quiet tt;
                       s_block_stdin := quiet tt; s_loop := [idle];
                       s_restore := quiet tt |} [7] 5 2))
             eq_refl eq_refl eq_refl eq_refl).
Defined.

Lemma after_pass (sc : script) (s : state) (fd : Z) (it : iteration)
      (post : list iteration) (a : attrs) :
  old_tty s = Some a -> returns (s_restore sc) = true ->
  fst (relay_pass fd it s) <> Done Next ->
  try_finally (relay_loop fd (it :: post)) (restore sc) s
  = (match fst (relay_pass fd it s) with
     | Raise x => Raise x
     | _ => Done tt
     end,
     {| child_pid := child_pid s; old_tty := Some a; tty := a;
        trace := trace (snd (relay_pass fd it s))
                 ++ handled (child_pid s) (sigs (s_restore sc))
                 ++ [ETcsetattr a] |}).
Proof.
  intros O R N. unfold try_finally. cbn [relay_loop]. unfold bind.
  destruct (relay_pass_ends fd it s) as [NR NX].
  destruct (relay_pass_log fd it s) as (e1 & E1 & _).
  destruct (relay_pass fd it s) as [r s1]; simpl in *; subst s1.
  destruct r as [[]|x| |]; try congruence;
    unfold ret; cbn beta iota; rewrite restore_eq; simpl; rewrite O, R; simpl;
    reflexivity.
Qed.

(** X8: [select.select] stands outside the inner [try] blocks, so an
    [OSError] of it leaves the loop as an exception; the [finally]
    clause still runs, the terminal gets its saved attributes back, and
    the process ends with exit status 1. *)
Theorem select_error_restores (sc : script) (a : attrs) (p fd e : Z)
        (pre post : list iteration) (it : iteration) :
  out (s_fork sc) = Ok (p, fd) ->
  s_loop sc = pre ++ it :: post ->
  fst (run (with_loop sc pre) a) = Running ->
  has_sigterm (sigs (it_select it)) = false ->
  out (it_select it) = Err e ->
  returns (s_restore sc) = true ->
  fst (run sc a) = Raise (OSError e)
  /\ exit_status (fst (run sc a)) = Some 1
  /\ restores (trace (snd (run sc a))) = [a]
  /\ tty (snd (run sc a)) = a.
Proof.
  intros F L R S E Rs.
  destruct (run_after_prefix sc a p fd pre (it :: post) F L R)
    as (s2 & C & P & O & Rt & Eq).
  assert (Pass : relay_pass fd it s2
                 = (Raise (OSError e),
                    log s2 (handled (child_pid s2) (sigs (it_select it))))).
  { unfold relay_pass, select_select, bind. now rewrite syscall_eq, S, E. }
  rewrite Eq, (after_pass sc s2 fd it post a O Rs), Pass;
    [|rewrite Pass; discriminate].
  cbn [fst snd trace tty log exit_status].
  split; [reflexivity|]. split; [reflexivity|]. split; [|reflexivity].
  now rewrite !restores_app, Rt, !restores_handled.
Qed.

Lemma select_error_restores_witness :
  fst (run (session [idle; select_error EBADF]) [7]) = Raise (OSError EBADF)
  /\ tty (snd (run (session [idle; select_error EBADF]) [7])) = [7].
Proof.
  pose proof (select_error_restores (session [idle; select_error EBADF]) [7]
                1234 5 EBADF [idle] [] (select_error EBADF)
                eq_refl eq_refl eq_refl eq_refl eq_refl eq_refl)
    as (H1 & _ & _ & H4).
  split; [exact H1 | exact H4].
Defined.

(** X9: the bare [except] around [os.waitpid] also catches the
    [SystemExit] of the SIGTERM handler.  When SIGTERM is handled at
    [waitpid], the child gets SIGTERM, the loop is left through
    [break], the terminal is restored and [main] returns normally
    instead of passing [SystemExit] on. *)
Theorem sigterm_at_waitpid_returns (sc : script) (a : attrs) (p fd : Z)
        (pre post : list iteration) (it : iteration) :
  out (s_fork sc) = Ok (p, fd) ->
  s_loop sc = pre ++ it :: post ->
  fst (run (with_loop sc pre) a) = Running ->
  has_sigterm (sigs (it_select it)) = false ->
  out (it_select it) = Ok [] ->
  has_sigterm (sigs (it_wait it)) = true ->
  returns (s_restore sc) = true ->
  fst (run sc a) = Done tt
  /\ In (p, SIGTERM) (kills (trace (snd (run sc a))))
  /\ restores (trace (snd (run sc a))) = [a]
  /\ tty (snd (run sc a)) = a.
Proof.
  intros F L R S E W Rs.
  destruct (run_after_prefix sc a p fd pre (it :: post) F L R)
    as (s2 & C & P & O & Rt & Eq).
  assert (Pass : relay_pass fd it s2
                 = (Done Break,
                    log s2 (handled (Some p) (sigs (it_select it))
                            ++ [ESelect [Stdin; Master fd] select_timeout_ms]
                            ++ handled (Some p) (sigs (it_wait it))))).
  { repeat autounfold with py. crunch.
    all: try (simpl in *; discriminate).
    all: try congruence.
    all: now rewrite ?C, <- ?app_assoc. }
  rewrite Eq, (after_pass sc s2 fd it post a O Rs), Pass;
    [|rewrite Pass; discriminate].
  cbn [fst snd trace tty log].
  split; [reflexivity|]. split; [|split; [|reflexivity]].
  - destruct (handled_sigterm_last p (sigs (it_wait it)) P W) as (evs & H).
    rewrite H. repeat (rewrite kills_app || rewrite in_app_iff).
    cbn [kills In]. auto 12.
  - now rewrite !restores_app, Rt, !restores_handled.
Qed.

Lemma sigterm_at_waitpid_returns_witness :
  fst (run (session [idle; sigterm_at_wait; idle]) [7]) = Done tt
  /\ In (1234, SIGTERM)
        (kills (trace (snd (run (session [idle; sigterm_at_wait; idle]) [7])))).
Proof.
  pose proof (sigterm_at_waitpid_returns
                (session [idle; sigterm_at_wait; idle]) [7] 1234 5
                [idle] [idle] sigterm_at_wait
                eq_refl eq_refl eq_refl eq_refl eq_refl eq_refl eq_refl)
    as (H1 & H2 & _).
  split; [exact H1 | exact H2].
Defined.

(** ** While the session runs *)

Lemma startup_raw (fd : Z) (sc : script) (s : state) (raw : attrs) :
  out (s_setraw sc) = Ok raw ->
  fst (startup fd sc s) = Done tt ->
  tty (snd (startup fd sc s)) = raw
  /\ no_kills (since s (snd (startup fd sc s)))
     = [ESetraw; ESetBlocking (Master fd) false; ESetBlocking Stdin false].
Proof.
  intro Raw.
  unfold startup, tcgetattr, tty_setraw, set_blocking, set_old_tty, set_tty,
    bind, get.
  crunch; simpl; intro H; try discriminate H.
  split; [congruence|].
  unfold since; simpl. rewrite <- !app_assoc, skipn_app, Nat.sub_diag, skipn_all.
  cbn [app]. rewrite skipn_O.
  repeat first [ rewrite no_kills_app | rewrite no_kills_handled
               | progress cbn [no_kills app] ].
  reflexivity.
Qed.

(** X10: what holds for as long as the relay is in its loop.  The
    startup has saved the attributes the terminal had, switched it to
    raw mode and made the master and the input non-blocking, in this
    order and before the first [select]; the loop leaves the terminal
    in raw mode, keeps the saved attributes and the registered child,
    and has not called [tcsetattr]. *)
Theorem running_invariant (sc : script) (a raw : attrs) (p fd : Z) :
  out (s_fork sc) = Ok (p, fd) ->
  out (s_setraw sc) = Ok raw ->
  fst (run sc a) = Running ->
  child_pid (snd (run sc a)) = Some p
  /\ old_tty (snd (run sc a)) = Some a
  /\ tty (snd (run sc a)) = raw
  /\ restores (trace (snd (run sc a))) = []
  /\ exists evs,
       no_kills (trace (snd (run sc a)))
       = [ESetraw; ESetBlocking (Master fd) false; ESetBlocking Stdin false]
         ++ evs.
Proof.
  intros F Raw R. destruct (run_running sc a p fd F R) as [P S].
  rewrite (run_parent sc a p fd F P S) in *.
  set (s0 := {| child_pid := Some p; old_tty := None; tty := a; trace := [] |})
    in *.
  unfold parent, try_finally, bind in *.
  destruct (startup_log fd sc s0) as (e1 & C1 & T1 & R1 & _ & NR & _).
  pose proof (startup_done fd sc s0) as O1.
  pose proof (startup_raw fd sc s0 raw Raw) as T2.
  destruct (startup fd sc s0) as [[[]|e| |] s1]; simpl in *;
    try congruence;
    try (rewrite restore_eq in R; simpl in R; discriminate R).
  destruct (T2 eq_refl) as [Ty NK]. unfold since in NK; simpl in NK.
  destruct (relay_loop_log fd (s_loop sc) s1) as (e2 & E2 & R2).
  destruct (relay_loop fd (s_loop sc) s1) as [r s2]; simpl in *; subst s2.
  destruct r; simpl in *; try discriminate R;
    try (rewrite restore_eq in R; simpl in R; discriminate R).
  rewrite T1, ?skipn_O in NK.
  rewrite T1, restores_app, R1, R2, no_kills_app, NK.
  split; [assumption|]. split; [now apply O1|]. split; [assumption|].
  split; [reflexivity|]. now exists (no_kills e2).
Qed.

Lemma running_invariant_witness :
  tty (snd (run (session [idle; typed ls (quiet BUFSIZE)]) [7])) = [0]
  /\ old_tty (snd (run (session [idle; typed ls (quiet BUFSIZE)]) [7]))
     = Some [7]
  /\ restores (trace (snd (run (session [idle; typed ls (quiet BUFSIZE)]) [7])))
     = [].
Proof.
  pose proof (running_invariant (session [idle; typed ls (quiet BUFSIZE)])
                [7] [0] 1234 5 eq_refl eq_refl eq_refl)
    as (_ & H2 & H3 & H4 & _).
  split; [exact H3 | split; [exact H2 | exact H4]].
Defined.
